(** * DAGTypeLegalizer: the type-legalisation interface of the SelectionDAG

    A shallow embedding of [lib/CodeGen/SelectionDAG/LegalizeTypes.h]:
    the legality classifier, the conversion tables with their accessors,
    replacement bookkeeping and the zero-extending accessor, together with
    the properties the specification states about them.

    Assertions are modelled as enabled: a failing [assert] ends the call,
    and for a member that changes the legalizer the state it stopped in is
    kept. *)

From stdpp Require Import gmap strings list fin_maps.
From Stdlib Require Import ZArith Lia.

Local Open Scope string_scope.

(** ** Value types *)

(** Modelled from the spec: [MVT] is declared in llvm/CodeGen/ValueTypes.h,
    which is not part of the sources at hand.  The header only asks a value
    type whether it is a vector, whether it is an integer, for its width in
    bits and for its element count; the model keeps exactly that much. *)
Inductive ScalarKind : Type :=
  | IntegerTy
  | FloatTy
  | OtherTy.

Inductive MVT : Type :=
  | ScalarVT (k : ScalarKind) (bits : N)
  | VectorVT (k : ScalarKind) (eltBits : N) (numElts : N).

#[global] Instance ScalarKind_eq_dec : EqDecision ScalarKind.
Proof. solve_decision. Defined.

#[global] Instance MVT_eq_dec : EqDecision MVT.
Proof. solve_decision. Defined.

Definition isVector (VT : MVT) : bool :=
  match VT with
  | ScalarVT _ _ => false
  | VectorVT _ _ _ => true
  end.

Definition kindOf (VT : MVT) : ScalarKind :=
  match VT with
  | ScalarVT k _ => k
  | VectorVT k _ _ => k
  end.

Definition isInteger (VT : MVT) : bool :=
  match kindOf VT with
  | IntegerTy => true
  | _ => false
  end.

Definition isFloatingPoint (VT : MVT) : bool :=
  match kindOf VT with
  | FloatTy => true
  | _ => false
  end.

Definition getSizeInBits (VT : MVT) : N :=
  match VT with
  | ScalarVT _ bits => bits
  | VectorVT _ eltBits numElts => (eltBits * numElts)%N
  end.

Definition getVectorNumElements (VT : MVT) : N :=
  match VT with
  | ScalarVT _ _ => 0%N
  | VectorVT _ _ numElts => numElts
  end.

(** ** The target query *)

Module TargetLowering.

(** Modelled from the spec: the coarse action of the target query,
    declared in llvm/Target/TargetLowering.h.  The table keeps two bits per
    type, so besides the three actions the classifier names there is room
    for a fourth enumerator; it is the one the [default:] label of
    [getTypeAction] catches. *)
Inductive LegalizeAction : Type :=
  | Legal
  | Promote
  | Expand
  | Custom.

(** [ValueTypeActionImpl]: the per-type action table, read through
    [getTypeAction]. *)
Record ValueTypeActionImpl : Type := {
  getTypeAction : MVT -> LegalizeAction
}.

Record t : Type := {
  getValueTypeActions : ValueTypeActionImpl;
  getTypeToTransformTo : MVT -> MVT
}.

End TargetLowering.

(** ** Graph values *)

(** Modelled from the spec: [SDOperand], [SDNode] and [SelectionDAG] are
    declared in llvm/CodeGen/SelectionDAG.h, which is not part of the sources
    at hand.  An edge is a (node, result-slot) pair; a node pointer is an
    address, with 0 the null pointer, so [SDOperand()] is [nullOperand]. *)
Record SDOperand : Type := mkSDOperand { Val : N; ResNo : N }.

#[global] Instance SDOperand_eq_dec : EqDecision SDOperand.
Proof. solve_decision. Defined.

#[global] Instance SDOperand_countable : Countable SDOperand.
Proof.
  apply (inj_countable' (fun o => (Val o, ResNo o))
                        (fun p => mkSDOperand (fst p) (snd p))).
  by intros [].
Defined.

Definition nullOperand : SDOperand := mkSDOperand 0 0.

Module ISD.

(** The opcodes the zero-extension helper builds, and the rest. *)
Inductive NodeType : Type :=
  | Constant
  | AND
  | Other (opc : N).

End ISD.

(** A node: opcode, result types, operand edges, and for [ISD.Constant] the
    constant it carries. *)
Record SDNode : Type := mkSDNode {
  Opcode : ISD.NodeType;
  ValueTypes : list MVT;
  Operands : list SDOperand;
  ConstVal : Z
}.

Record SelectionDAG : Type := mkSelectionDAG {
  AllNodes : gmap N SDNode;
  getTargetLoweringInfo : TargetLowering.t
}.

(** [Op.getValueType()]; a dangling edge has no type. *)
Definition getValueType (G : SelectionDAG) (Op : SDOperand) : option MVT :=
  match AllNodes G !! Val Op with
  | Some nd => ValueTypes nd !! N.to_nat (ResNo Op)
  | None => None
  end.

(** Allocation of a node: a non-null address no node of the graph has. *)
Definition freshNode (G : SelectionDAG) : N :=
  fresh ({[ 0%N ]} ∪ dom (AllNodes G)).

Definition addNode (G : SelectionDAG) (nd : SDNode) : SDOperand * SelectionDAG :=
  let id := freshNode G in
  (mkSDOperand id 0,
   mkSelectionDAG (<[ id := nd ]> (AllNodes G)) (getTargetLoweringInfo G)).

Definition getConstant (G : SelectionDAG) (C : Z) (VT : MVT)
  : SDOperand * SelectionDAG :=
  addNode G (mkSDNode ISD.Constant [VT] [] C).

Definition getNode (G : SelectionDAG) (Opc : ISD.NodeType) (VT : MVT)
    (N1 N2 : SDOperand) : SDOperand * SelectionDAG :=
  addNode G (mkSDNode Opc [VT] [N1; N2] 0).

(** [APInt::getLowBitsSet(numBits, loBitsSet)]: a [numBits]-wide constant
    whose low [loBitsSet] bits are ones. *)
Definition getLowBitsSet (numBits loBitsSet : N) : Z :=
  Z.land (Z.ones (Z.of_N loBitsSet)) (Z.ones (Z.of_N numBits)).

(** Modelled from the spec: [SelectionDAG::getZeroExtendInReg] is defined in
    SelectionDAG.cpp, not at hand.  It zero-extends [Op] in register from the
    type [VT]: the value itself when it already has that type, and otherwise
    the value ANDed with a constant that keeps the low bits of [VT]. *)
Definition getZeroExtendInReg (G : SelectionDAG) (Op : SDOperand) (VT : MVT)
  : option (SDOperand * SelectionDAG) :=
  match getValueType G Op with
  | None => None
  | Some OpVT =>
      if decide (OpVT = VT) then Some (Op, G)
      else
        let Imm := getLowBitsSet (getSizeInBits OpVT) (getSizeInBits VT) in
        let '(C, G1) := getConstant G Imm OpVT in
        Some (getNode G1 ISD.AND OpVT Op C)
  end.

(** The bit pattern a graph value computes.  Nodes other than constants and
    ANDs are opaque: their pattern comes from [input].  Every pattern is
    cut to the width of the value's type. *)
Definition truncTo (VT : MVT) (z : Z) : Z :=
  z mod 2 ^ Z.of_N (getSizeInBits VT).

Fixpoint evalValue (input : SDOperand -> Z) (fuel : nat) (G : SelectionDAG)
    (V : SDOperand) : option Z :=
  match fuel with
  | O => None
  | S fuel' =>
      match AllNodes G !! Val V with
      | None => None
      | Some nd =>
          match ValueTypes nd !! N.to_nat (ResNo V) with
          | None => None
          | Some VT =>
              match Opcode nd with
              | ISD.Constant => Some (truncTo VT (ConstVal nd))
              | ISD.AND =>
                  match Operands nd with
                  | [A; B] =>
                      match evalValue input fuel' G A,
                            evalValue input fuel' G B with
                      | Some a, Some b => Some (truncTo VT (Z.land a b))
                      | _, _ => None
                      end
                  | _ => None
                  end
              | ISD.Other _ => Some (truncTo VT (input V))
              end
          end
      end
  end.

(** ** Results of calls *)

(** A [const] member either returns or trips an assertion. *)
Inductive result (A : Type) : Type :=
  | Ok (a : A)
  | AssertFail (msg : string).
Arguments Ok {A} a.
Arguments AssertFail {A} msg.

(** ** The legalizer *)

Inductive LegalizeAction : Type :=
  | Legal
  | PromoteInteger
  | ExpandInteger
  | PromoteFloat
  | ExpandFloat
  | Scalarize
  | Split.

#[global] Instance LegalizeAction_eq_dec : EqDecision LegalizeAction.
Proof. solve_decision. Defined.

Record DAGTypeLegalizer : Type := mkDAGTypeLegalizer {
  TLI : TargetLowering.t;
  DAG : SelectionDAG;
  ValueTypeActions : TargetLowering.ValueTypeActionImpl;
  PromotedIntegers : gmap SDOperand SDOperand;
  ExpandedIntegers : gmap SDOperand (SDOperand * SDOperand);
  PromotedFloats : gmap SDOperand SDOperand;
  ExpandedFloats : gmap SDOperand (SDOperand * SDOperand);
  ScalarizedVectors : gmap SDOperand SDOperand;
  SplitVectors : gmap SDOperand (SDOperand * SDOperand);
  ReplacedNodes : gmap SDOperand SDOperand;
  Worklist : list N
}.

(** A member that changes the legalizer returns with the new state, trips
    an assertion in the state reached so far, or does not come back at all
    (a dangling edge, a replacement chain that runs in a circle). *)
Inductive outcome (A : Type) : Type :=
  | Return (a : A) (L : DAGTypeLegalizer)
  | Abort (msg : string) (L : DAGTypeLegalizer)
  | Stuck.
Arguments Return {A} a L.
Arguments Abort {A} msg L.
Arguments Stuck {A}.

(** *** The legality classifier *)

Definition getTypeAction (L : DAGTypeLegalizer) (VT : MVT)
  : result LegalizeAction :=
  match TargetLowering.getTypeAction (ValueTypeActions L) VT with
  | TargetLowering.Legal => Ok Legal
  | TargetLowering.Promote => Ok PromoteInteger
  | TargetLowering.Expand =>
      if negb (isVector VT) then
        if isInteger VT then Ok ExpandInteger
        else if (getSizeInBits VT =?
                 getSizeInBits (TargetLowering.getTypeToTransformTo (TLI L) VT))%N
             then Ok PromoteFloat
             else Ok ExpandFloat
      else if (getVectorNumElements VT =? 1)%N then Ok Scalarize
      else Ok Split
  | TargetLowering.Custom => AssertFail "Unknown legalize action!"
  end.

Definition isTypeLegal (L : DAGTypeLegalizer) (VT : MVT) : bool :=
  match TargetLowering.getTypeAction (ValueTypeActions L) VT with
  | TargetLowering.Legal => true
  | _ => false
  end.

(** *** Construction *)

(** [MVT::LAST_VALUETYPE], the number of simple value types, is a constant
    of ValueTypes.h; it is taken as a parameter. *)
Definition DAGTypeLegalizer_ctor (LAST_VALUETYPE : N) (dag : SelectionDAG)
  : result DAGTypeLegalizer :=
  let tli := getTargetLoweringInfo dag in
  let L := {| TLI := tli;
              DAG := dag;
              ValueTypeActions := TargetLowering.getValueTypeActions tli;
              PromotedIntegers := ∅;
              ExpandedIntegers := ∅;
              PromotedFloats := ∅;
              ExpandedFloats := ∅;
              ScalarizedVectors := ∅;
              SplitVectors := ∅;
              ReplacedNodes := ∅;
              Worklist := [] |} in
  if (LAST_VALUETYPE <=? 32)%N then Ok L
  else AssertFail "Too many value types for ValueTypeActions to hold!".

(** *** Field updates *)

Definition set_DAG (G : SelectionDAG) (L : DAGTypeLegalizer) : DAGTypeLegalizer :=
  mkDAGTypeLegalizer (TLI L) G (ValueTypeActions L)
    (PromotedIntegers L) (ExpandedIntegers L) (PromotedFloats L)
    (ExpandedFloats L) (ScalarizedVectors L) (SplitVectors L)
    (ReplacedNodes L) (Worklist L).

Definition set_PromotedIntegers (M : gmap SDOperand SDOperand)
    (L : DAGTypeLegalizer) : DAGTypeLegalizer :=
  mkDAGTypeLegalizer (TLI L) (DAG L) (ValueTypeActions L)
    M (ExpandedIntegers L) (PromotedFloats L)
    (ExpandedFloats L) (ScalarizedVectors L) (SplitVectors L)
    (ReplacedNodes L) (Worklist L).

Definition set_ExpandedIntegers (M : gmap SDOperand (SDOperand * SDOperand))
    (L : DAGTypeLegalizer) : DAGTypeLegalizer :=
  mkDAGTypeLegalizer (TLI L) (DAG L) (ValueTypeActions L)
    (PromotedIntegers L) M (PromotedFloats L)
    (ExpandedFloats L) (ScalarizedVectors L) (SplitVectors L)
    (ReplacedNodes L) (Worklist L).

Definition set_PromotedFloats (M : gmap SDOperand SDOperand)
    (L : DAGTypeLegalizer) : DAGTypeLegalizer :=
  mkDAGTypeLegalizer (TLI L) (DAG L) (ValueTypeActions L)
    (PromotedIntegers L) (ExpandedIntegers L) M
    (ExpandedFloats L) (ScalarizedVectors L) (SplitVectors L)
    (ReplacedNodes L) (Worklist L).

Definition set_ExpandedFloats (M : gmap SDOperand (SDOperand * SDOperand))
    (L : DAGTypeLegalizer) : DAGTypeLegalizer :=
  mkDAGTypeLegalizer (TLI L) (DAG L) (ValueTypeActions L)
    (PromotedIntegers L) (ExpandedIntegers L) (PromotedFloats L)
    M (ScalarizedVectors L) (SplitVectors L)
    (ReplacedNodes L) (Worklist L).

Definition set_ScalarizedVectors (M : gmap SDOperand SDOperand)
    (L : DAGTypeLegalizer) : DAGTypeLegalizer :=
  mkDAGTypeLegalizer (TLI L) (DAG L) (ValueTypeActions L)
    (PromotedIntegers L) (ExpandedIntegers L) (PromotedFloats L)
    (ExpandedFloats L) M (SplitVectors L)
    (ReplacedNodes L) (Worklist L).

Definition set_SplitVectors (M : gmap SDOperand (SDOperand * SDOperand))
    (L : DAGTypeLegalizer) : DAGTypeLegalizer :=
  mkDAGTypeLegalizer (TLI L) (DAG L) (ValueTypeActions L)
    (PromotedIntegers L) (ExpandedIntegers L) (PromotedFloats L)
    (ExpandedFloats L) (ScalarizedVectors L) M
    (ReplacedNodes L) (Worklist L).

Definition set_ReplacedNodes (M : gmap SDOperand SDOperand)
    (L : DAGTypeLegalizer) : DAGTypeLegalizer :=
  mkDAGTypeLegalizer (TLI L) (DAG L) (ValueTypeActions L)
    (PromotedIntegers L) (ExpandedIntegers L) (PromotedFloats L)
    (ExpandedFloats L) (ScalarizedVectors L) (SplitVectors L)
    M (Worklist L).

(** [DenseMap::operator[]]: the entry of a key, which is first created with
    the default value when the map has none.  The accessors hold on to the
    entry by reference; what they assign through the reference changes that
    entry in place ([alter]) and creates nothing. *)
Definition DenseMap_index {V : Type} (dflt : V) (M : gmap SDOperand V)
    (K : SDOperand) : V * gmap SDOperand V :=
  match M !! K with
  | Some v => (v, M)
  | None => (dflt, <[ K := dflt ]> M)
  end.

(** *** The remap/replace engine *)

(** Modelled from the spec: [RemapNode] is defined in LegalizeTypes.cpp, not
    at hand.  It follows the replacement table transitively until it reaches
    a value with no outstanding replacement entry, and leaves that value in
    the caller's reference.  A chain of distinct keys has at most as many
    links as the table has entries; a walk that is still not through after
    that many links is running in a circle and never ends. *)
Fixpoint RemapNode_walk (fuel : nat) (R : gmap SDOperand SDOperand)
    (N : SDOperand) : option SDOperand :=
  match fuel with
  | O => None
  | S fuel' =>
      match R !! N with
      | None => Some N
      | Some To => RemapNode_walk fuel' R To
      end
  end.

Definition RemapNode (L : DAGTypeLegalizer) (N : SDOperand) : option SDOperand :=
  RemapNode_walk (S (size (ReplacedNodes L))) (ReplacedNodes L) N.

(** A reference is canonical when the replacement table has no entry for
    it. *)
Definition canonical (L : DAGTypeLegalizer) (N : SDOperand) : Prop :=
  ReplacedNodes L !! N = None.

(** Modelled from the spec: [ExpungeNode] is defined in LegalizeTypes.cpp,
    not at hand.  It removes all stale entries for a value that is about to
    be superseded: its entry in each conversion table and in the replacement
    table. *)
Definition ExpungeNode (N : SDOperand) (L : DAGTypeLegalizer) : DAGTypeLegalizer :=
  mkDAGTypeLegalizer (TLI L) (DAG L) (ValueTypeActions L)
    (delete N (PromotedIntegers L)) (delete N (ExpandedIntegers L))
    (delete N (PromotedFloats L)) (delete N (ExpandedFloats L))
    (delete N (ScalarizedVectors L)) (delete N (SplitVectors L))
    (delete N (ReplacedNodes L)) (Worklist L).

Definition NoteReplacement (From To : SDOperand) (L : DAGTypeLegalizer)
  : DAGTypeLegalizer :=
  let L1 := ExpungeNode From L in
  let L2 := ExpungeNode To L1 in
  set_ReplacedNodes (<[ From := To ]> (ReplacedNodes L2)) L2.

(** *** Integer promotion *)

Definition GetPromotedInteger (Op : SDOperand) (L : DAGTypeLegalizer)
  : outcome SDOperand :=
  let '(PromotedOp, M) := DenseMap_index nullOperand (PromotedIntegers L) Op in
  let L1 := set_PromotedIntegers M L in
  match RemapNode L1 PromotedOp with
  | None => Stuck
  | Some PromotedOp' =>
      let L2 := set_PromotedIntegers (alter (fun _ => PromotedOp') Op M) L1 in
      if (Val PromotedOp' =? 0)%N
      then Abort "Operand wasn't promoted?" L2
      else Return PromotedOp' L2
  end.


Definition ZExtPromotedInteger (Op : SDOperand) (L : DAGTypeLegalizer)
  : outcome SDOperand :=
  match getValueType (DAG L) Op with
  | None => Stuck
  | Some OldVT =>
      match GetPromotedInteger Op L with
      | Return Op' L' =>
          match getZeroExtendInReg (DAG L') Op' OldVT with
          | Some (R, G') => Return R (set_DAG G' L')
          | None => Stuck
          end
      | Abort msg L' => Abort msg L'
      | Stuck => Stuck
      end
  end.

(** *** Float to integer conversion *)

Definition GetPromotedFloat (Op : SDOperand) (L : DAGTypeLegalizer)
  : outcome SDOperand :=
  let '(PromotedOp, M) := DenseMap_index nullOperand (PromotedFloats L) Op in
  let L1 := set_PromotedFloats M L in
  match RemapNode L1 PromotedOp with
  | None => Stuck
  | Some PromotedOp' =>
      let L2 := set_PromotedFloats (alter (fun _ => PromotedOp') Op M) L1 in
      if (Val PromotedOp' =? 0)%N
      then Abort "Operand wasn't converted to integer?" L2
      else Return PromotedOp' L2
  end.


(** *** Scalarization *)

Definition GetScalarizedVector (Op : SDOperand) (L : DAGTypeLegalizer)
  : outcome SDOperand :=
  let '(ScalarizedOp, M) := DenseMap_index nullOperand (ScalarizedVectors L) Op in
  let L1 := set_ScalarizedVectors M L in
  match RemapNode L1 ScalarizedOp with
  | None => Stuck
  | Some ScalarizedOp' =>
      let L2 := set_ScalarizedVectors (alter (fun _ => ScalarizedOp') Op M) L1 in
      if (Val ScalarizedOp' =? 0)%N
      then Abort "Operand wasn't scalarized?" L2
      else Return ScalarizedOp' L2
  end.


(** *** The pair-valued tables *)

(** Modelled from the spec: [GetExpandedInteger], [GetExpandedFloat] and
    [GetSplitVector] are only declared in the header; their bodies are in the
    .cpp files, not at hand.  Like the accessors above they resolve the
    stored references through [RemapNode] before handing them out and fail
    when the slot has no entry. *)
Definition GetExpandedInteger (Op : SDOperand) (L : DAGTypeLegalizer)
  : outcome (SDOperand * SDOperand) :=
  let '(Entry, M) :=
    DenseMap_index (nullOperand, nullOperand) (ExpandedIntegers L) Op in
  let L1 := set_ExpandedIntegers M L in
  match RemapNode L1 (fst Entry), RemapNode L1 (snd Entry) with
  | Some Lo, Some Hi =>
      let L2 := set_ExpandedIntegers (alter (fun _ => (Lo, Hi)) Op M) L1 in
      if (Val Lo =? 0)%N
      then Abort "Operand isn't expanded" L2
      else Return (Lo, Hi) L2
  | _, _ => Stuck
  end.


Definition GetExpandedFloat (Op : SDOperand) (L : DAGTypeLegalizer)
  : outcome (SDOperand * SDOperand) :=
  let '(Entry, M) :=
    DenseMap_index (nullOperand, nullOperand) (ExpandedFloats L) Op in
  let L1 := set_ExpandedFloats M L in
  match RemapNode L1 (fst Entry), RemapNode L1 (snd Entry) with
  | Some Lo, Some Hi =>
      let L2 := set_ExpandedFloats (alter (fun _ => (Lo, Hi)) Op M) L1 in
      if (Val Lo =? 0)%N
      then Abort "Operand isn't expanded" L2
      else Return (Lo, Hi) L2
  | _, _ => Stuck
  end.


Definition GetSplitVector (Op : SDOperand) (L : DAGTypeLegalizer)
  : outcome (SDOperand * SDOperand) :=
  let '(Entry, M) :=
    DenseMap_index (nullOperand, nullOperand) (SplitVectors L) Op in
  let L1 := set_SplitVectors M L in
  match RemapNode L1 (fst Entry), RemapNode L1 (snd Entry) with
  | Some Lo, Some Hi =>
      let L2 := set_SplitVectors (alter (fun _ => (Lo, Hi)) Op M) L1 in
      if (Val Lo =? 0)%N
      then Abort "Operand isn't split" L2
      else Return (Lo, Hi) L2
  | _, _ => Stuck
  end.


(** ** The conversion tables during a run *)

(** The action the classifier gives the type of a graph value. *)
Definition actionOf (L : DAGTypeLegalizer) (Op : SDOperand)
  : option LegalizeAction :=
  match getValueType (DAG L) Op with
  | None => None
  | Some VT =>
      match getTypeAction L VT with
      | Ok a => Some a
      | AssertFail _ => None
      end
  end.

Definition inTable {V : Type} (M : gmap SDOperand V) (Op : SDOperand) : bool :=
  bool_decide (is_Some (M !! Op)).

(** The conversion tables that hold a key, named by their action. *)
Definition tablesHolding (L : DAGTypeLegalizer) (Op : SDOperand)
  : list LegalizeAction :=
  (if inTable (PromotedIntegers L) Op then [PromoteInteger] else []) ++
  (if inTable (ExpandedIntegers L) Op then [ExpandInteger] else []) ++
  (if inTable (PromotedFloats L) Op then [PromoteFloat] else []) ++
  (if inTable (ExpandedFloats L) Op then [ExpandFloat] else []) ++
  (if inTable (ScalarizedVectors L) Op then [Scalarize] else []) ++
  (if inTable (SplitVectors L) Op then [Split] else []).







(** ** Contracts *)

(** The replacement table has no circular chain: some rank goes down along
    every entry. *)
Definition ranked (rank : SDOperand -> nat) (R : gmap SDOperand SDOperand)
  : Prop :=
  forall K V, R !! K = Some V -> rank V < rank K.

Definition acyclic (L : DAGTypeLegalizer) : Prop :=
  exists rank, ranked rank (ReplacedNodes L).

(** What the specification asks of an accessor of a single-valued table:
    on a state where the null reference is not itself replaced, a returned
    reference is the stored one resolved by [RemapNode], is not null and has
    no outstanding replacement; a stored reference that resolves to a
    non-null one is returned; and a slot without an entry makes the call
    fail. *)
Definition single_accessor_contract
    (table : DAGTypeLegalizer -> gmap SDOperand SDOperand)
    (get : SDOperand -> DAGTypeLegalizer -> outcome SDOperand) : Prop :=
  forall L Op,
    canonical L nullOperand ->
    (forall R L', get Op L = Return R L' ->
       exists v, table L !! Op = Some v /\ RemapNode L v = Some R /\
                 canonical L' R /\ Val R <> 0%N) /\
    (forall v R, table L !! Op = Some v -> RemapNode L v = Some R ->
       Val R <> 0%N -> exists L', get Op L = Return R L') /\
    (table L !! Op = None -> exists msg L', get Op L = Abort msg L').

(** The same for a table of (low, high) pairs. *)
Definition pair_accessor_contract
    (table : DAGTypeLegalizer -> gmap SDOperand (SDOperand * SDOperand))
    (get : SDOperand -> DAGTypeLegalizer -> outcome (SDOperand * SDOperand))
  : Prop :=
  forall L Op,
    canonical L nullOperand ->
    (forall Lo Hi L', get Op L = Return (Lo, Hi) L' ->
       exists v, table L !! Op = Some v /\
                 RemapNode L (fst v) = Some Lo /\
                 RemapNode L (snd v) = Some Hi /\
                 canonical L' Lo /\ canonical L' Hi /\ Val Lo <> 0%N) /\
    (forall v Lo Hi, table L !! Op = Some v ->
       RemapNode L (fst v) = Some Lo -> RemapNode L (snd v) = Some Hi ->
       Val Lo <> 0%N -> exists L', get Op L = Return (Lo, Hi) L') /\
    (table L !! Op = None -> exists msg L', get Op L = Abort msg L').



(** ** A sample target and graph *)

Module Sample.

Definition i8 : MVT := ScalarVT IntegerTy 8.
Definition i32 : MVT := ScalarVT IntegerTy 32.
Definition i64 : MVT := ScalarVT IntegerTy 64.
Definition f64 : MVT := ScalarVT FloatTy 64.
Definition ppcf128 : MVT := ScalarVT FloatTy 128.
Definition v1i32 : MVT := VectorVT IntegerTy 32 1.
Definition v4i32 : MVT := VectorVT IntegerTy 32 4.

(** A 32-bit integer-only target. *)
Definition actions : TargetLowering.ValueTypeActionImpl :=
  {| TargetLowering.getTypeAction := fun VT =>
       match VT with
       | ScalarVT IntegerTy bits =>
           if (bits =? 32)%N then TargetLowering.Legal
           else if (bits <? 32)%N then TargetLowering.Promote
           else TargetLowering.Expand
       | ScalarVT FloatTy _ => TargetLowering.Expand
       | ScalarVT OtherTy _ => TargetLowering.Legal
       | VectorVT _ _ _ => TargetLowering.Expand
       end |}.

Definition transformTo (VT : MVT) : MVT :=
  match VT with
  | ScalarVT IntegerTy bits =>
      if (bits <=? 32)%N then i32 else ScalarVT IntegerTy (bits / 2)
  | ScalarVT FloatTy bits =>
      if (bits <=? 64)%N then ScalarVT IntegerTy bits else f64
  | ScalarVT OtherTy bits => VT
  | VectorVT k eltBits numElts =>
      if (numElts =? 1)%N then ScalarVT k eltBits
      else VectorVT k eltBits (numElts / 2)
  end.

Definition tli : TargetLowering.t :=
  {| TargetLowering.getValueTypeActions := actions;
     TargetLowering.getTypeToTransformTo := transformTo |}.

(** Node 1 computes an [i8], node 2 an [i32], node 3 an [i64]. *)
Definition nodes : gmap N SDNode :=
  <[ 1%N := mkSDNode (ISD.Other 0) [i8] [] 0 ]>
  (<[ 2%N := mkSDNode (ISD.Other 0) [i32] [] 0 ]>
  (<[ 3%N := mkSDNode (ISD.Other 0) [i64] [] 0 ]> ∅)).

Definition dag : SelectionDAG := mkSelectionDAG nodes tli.

Definition byte : SDOperand := mkSDOperand 1 0.
Definition word : SDOperand := mkSDOperand 2 0.
Definition quad : SDOperand := mkSDOperand 3 0.

(** The legalizer as constructed on [dag]. *)
Definition fresh_legalizer : DAGTypeLegalizer :=
  mkDAGTypeLegalizer tli dag actions ∅ ∅ ∅ ∅ ∅ ∅ ∅ [].

(** The same once the [i8] value has been promoted to the [i32] one. *)
Definition promoted_legalizer : DAGTypeLegalizer :=
  set_PromotedIntegers {[ byte := word ]} fresh_legalizer.

(** Value 5 was replaced by value 6, and value 6 by value 7; the [i8]
    value was promoted to value 5 and the [i64] value expanded into the
    pair (5, 6). *)
Definition old : SDOperand := mkSDOperand 5 0.
Definition mid : SDOperand := mkSDOperand 6 0.
Definition new : SDOperand := mkSDOperand 7 0.

Definition replaced_legalizer : DAGTypeLegalizer :=
  set_ReplacedNodes {[ old := mid; mid := new ]}
    (set_ExpandedIntegers {[ quad := (old, mid) ]}
       (set_PromotedIntegers {[ byte := old ]} fresh_legalizer)).

(** A legalizer whose action table holds the fourth enumerator for every
    type. *)
Definition custom_actions : TargetLowering.ValueTypeActionImpl :=
  {| TargetLowering.getTypeAction := fun _ => TargetLowering.Custom |}.

Definition custom_legalizer : DAGTypeLegalizer :=
  mkDAGTypeLegalizer tli dag custom_actions ∅ ∅ ∅ ∅ ∅ ∅ ∅ [].

(** The [i8] value promoted to value 5, which nothing has replaced yet. *)
Definition stale_legalizer : DAGTypeLegalizer :=
  set_PromotedIntegers {[ byte := old ]} fresh_legalizer.

(** A float value, at address 4, converted to the integer value 5. *)
Definition float_legalizer : DAGTypeLegalizer :=
  set_PromotedFloats {[ mkSDOperand 4 0 := old ]} fresh_legalizer.

End Sample.

(** The state a call leaves behind, when it comes back or stops in an
    assertion. *)
Definition final_state {A : Type} (o : outcome A) : option DAGTypeLegalizer :=
  match o with
  | Return _ L => Some L
  | Abort _ L => Some L
  | Stuck => None
  end.

(** [L'] has the target data, the worklist and every conversion table of
    [L], the table of the action [skip] apart. *)
Definition tables_kept (skip : LegalizeAction) (L L' : DAGTypeLegalizer)
  : Prop :=
  TLI L' = TLI L /\
  ValueTypeActions L' = ValueTypeActions L /\
  Worklist L' = Worklist L /\
  (skip <> PromoteInteger -> PromotedIntegers L' = PromotedIntegers L) /\
  (skip <> ExpandInteger -> ExpandedIntegers L' = ExpandedIntegers L) /\
  (skip <> PromoteFloat -> PromotedFloats L' = PromotedFloats L) /\
  (skip <> ExpandFloat -> ExpandedFloats L' = ExpandedFloats L) /\
  (skip <> Scalarize -> ScalarizedVectors L' = ScalarizedVectors L) /\
  (skip <> Split -> SplitVectors L' = SplitVectors L).

(** * Properties *)

(** ** The classifier *)

(** C1: for every value type the classifier's answer is fixed by the coarse
    action of the target query: Legal gives [Legal], Promote gives
    [PromoteInteger], and Expand gives [ExpandInteger] for a scalar integer,
    [PromoteFloat] or [ExpandFloat] for a scalar float according to whether
    the transform-to type has the same width, [Scalarize] for a vector of one
    element and [Split] for a vector of more; in each of the three cases it
    returns one of the seven actions. *)
Theorem getTypeAction_classifies (L : DAGTypeLegalizer) (VT : MVT) :
  let coarse := TargetLowering.getTypeAction (ValueTypeActions L) VT in
  let TT := TargetLowering.getTypeToTransformTo (TLI L) VT in
  (coarse = TargetLowering.Legal -> getTypeAction L VT = Ok Legal) /\
  (coarse = TargetLowering.Promote -> getTypeAction L VT = Ok PromoteInteger) /\
  (coarse = TargetLowering.Expand -> isVector VT = false ->
     isInteger VT = true -> getTypeAction L VT = Ok ExpandInteger) /\
  (coarse = TargetLowering.Expand -> isVector VT = false ->
     isFloatingPoint VT = true -> getSizeInBits VT = getSizeInBits TT ->
     getTypeAction L VT = Ok PromoteFloat) /\
  (coarse = TargetLowering.Expand -> isVector VT = false ->
     isFloatingPoint VT = true -> getSizeInBits VT <> getSizeInBits TT ->
     getTypeAction L VT = Ok ExpandFloat) /\
  (coarse = TargetLowering.Expand -> isVector VT = true ->
     getVectorNumElements VT = 1%N -> getTypeAction L VT = Ok Scalarize) /\
  (coarse = TargetLowering.Expand -> isVector VT = true ->
     (1 < getVectorNumElements VT)%N -> getTypeAction L VT = Ok Split) /\
  (coarse <> TargetLowering.Custom -> exists a, getTypeAction L VT = Ok a).
Proof.
  cbv zeta. unfold getTypeAction.
  repeat split.
  - intros ->. reflexivity.
  - intros ->. reflexivity.
  - intros -> -> ->. reflexivity.
  - intros -> -> Hf Hsz. rewrite <- Hsz, N.eqb_refl.
    unfold isFloatingPoint in Hf. unfold isInteger.
    destruct (kindOf VT); simpl; congruence.
  - intros -> -> Hf Hsz. apply N.eqb_neq in Hsz. rewrite Hsz.
    unfold isFloatingPoint in Hf. unfold isInteger.
    destruct (kindOf VT); simpl; congruence.
  - intros -> -> ->. reflexivity.
  - intros -> -> Hn.
    assert ((getVectorNumElements VT =? 1)%N = false) as ->
      by (apply N.eqb_neq; lia).
    reflexivity.
  - intros Hc.
    destruct (TargetLowering.getTypeAction (ValueTypeActions L) VT);
      try congruence; eauto.
    destruct (negb (isVector VT)), (isInteger VT),
      (getSizeInBits VT =?
       getSizeInBits (TargetLowering.getTypeToTransformTo (TLI L) VT))%N,
      (getVectorNumElements VT =? 1)%N; eauto.
Qed.

Lemma getTypeAction_classifies_witness :
  getTypeAction Sample.fresh_legalizer Sample.i32 = Ok Legal /\
  getTypeAction Sample.fresh_legalizer Sample.i8 = Ok PromoteInteger /\
  getTypeAction Sample.fresh_legalizer Sample.i64 = Ok ExpandInteger /\
  getTypeAction Sample.fresh_legalizer Sample.f64 = Ok PromoteFloat /\
  getTypeAction Sample.fresh_legalizer Sample.ppcf128 = Ok ExpandFloat /\
  getTypeAction Sample.fresh_legalizer Sample.v1i32 = Ok Scalarize /\
  getTypeAction Sample.fresh_legalizer Sample.v4i32 = Ok Split.
Proof.
  split; [| split; [| split; [| split; [| split; [| split]]]]].
  - apply (getTypeAction_classifies Sample.fresh_legalizer Sample.i32).
    reflexivity.
  - apply (getTypeAction_classifies Sample.fresh_legalizer Sample.i8).
    reflexivity.
  - apply (getTypeAction_classifies Sample.fresh_legalizer Sample.i64);
      reflexivity.
  - apply (getTypeAction_classifies Sample.fresh_legalizer Sample.f64);
      reflexivity.
  - apply (getTypeAction_classifies Sample.fresh_legalizer Sample.ppcf128);
      [reflexivity | reflexivity | reflexivity | vm_compute; discriminate].
  - apply (getTypeAction_classifies Sample.fresh_legalizer Sample.v1i32);
      reflexivity.
  - apply (getTypeAction_classifies Sample.fresh_legalizer Sample.v4i32);
      [reflexivity | reflexivity | vm_compute; reflexivity].
Defined.

(** ** Construction *)

(** C7: the action table holds two bits for each of at most 32 simple value
    types; constructing the legalizer when there are more trips the
    assertion at once, and no legalizer is produced. *)
Theorem ctor_rejects_too_many_value_types (LAST_VALUETYPE : N)
    (dag : SelectionDAG) :
  (32 < LAST_VALUETYPE)%N ->
  DAGTypeLegalizer_ctor LAST_VALUETYPE dag =
    AssertFail "Too many value types for ValueTypeActions to hold!" /\
  (forall L, DAGTypeLegalizer_ctor LAST_VALUETYPE dag <> Ok L).
Proof.
  intros Hlt. unfold DAGTypeLegalizer_ctor.
  assert ((LAST_VALUETYPE <=? 32)%N = false) as -> by (apply N.leb_gt; lia).
  split; [reflexivity | discriminate].
Qed.

Lemma ctor_rejects_too_many_value_types_witness :
  DAGTypeLegalizer_ctor 33 Sample.dag =
    AssertFail "Too many value types for ValueTypeActions to hold!" /\
  (forall L, DAGTypeLegalizer_ctor 33 Sample.dag <> Ok L).
Proof.
  apply (ctor_rejects_too_many_value_types 33 Sample.dag). lia.
Defined.

(** Within the capacity the constructor returns a legalizer with the
    target's action table snapshot and every table empty. *)
Lemma ctor_within_capacity (LAST_VALUETYPE : N) (dag : SelectionDAG) :
  (LAST_VALUETYPE <= 32)%N ->
  exists L, DAGTypeLegalizer_ctor LAST_VALUETYPE dag = Ok L /\
            DAG L = dag /\ TLI L = getTargetLoweringInfo dag /\
            ValueTypeActions L =
              TargetLowering.getValueTypeActions (getTargetLoweringInfo dag) /\
            forall Op, tablesHolding L Op = [] /\ ReplacedNodes L !! Op = None.
Proof.
  intros Hle. unfold DAGTypeLegalizer_ctor.
  assert ((LAST_VALUETYPE <=? 32)%N = true) as -> by (apply N.leb_le; lia).
  eexists. split; [reflexivity |]. simpl. repeat split.
Qed.

(** ** The remap/replace engine *)

Lemma RemapNode_walk_canonical fuel (R : gmap SDOperand SDOperand) N N' :
  RemapNode_walk fuel R N = Some N' -> R !! N' = None.
Proof.
  revert N. induction fuel as [|fuel IH]; intros N; simpl; [discriminate |].
  destruct (R !! N) as [To|] eqn:E.
  - apply IH.
  - intros [= <-]. exact E.
Qed.

Lemma RemapNode_walk_fixed fuel (R : gmap SDOperand SDOperand) N :
  R !! N = None -> RemapNode_walk (S fuel) R N = Some N.
Proof. intros E. simpl. by rewrite E. Qed.

Lemma ranked_delete rank (R : gmap SDOperand SDOperand) K :
  ranked rank R -> ranked rank (delete K R).
Proof.
  intros HR K' V HK. apply lookup_delete_Some in HK as [_ HK]. by apply HR.
Qed.

(** A walk never comes back to a key of higher rank, so that key may as
    well be dropped from the table. *)
Lemma RemapNode_walk_delete rank fuel (R : gmap SDOperand SDOperand) K N :
  ranked rank R -> rank N < rank K ->
  RemapNode_walk fuel (delete K R) N = RemapNode_walk fuel R N.
Proof.
  intros HR. revert N. induction fuel as [|fuel IH]; intros N HN; simpl;
    [reflexivity |].
  assert (K <> N) as Hne by (intros ->; lia).
  rewrite lookup_delete_ne by exact Hne.
  destruct (R !! N) as [To|] eqn:E; [| reflexivity].
  apply IH. specialize (HR _ _ E). lia.
Qed.

(** On a table without circular chains, as many links as the table has
    entries are enough. *)
Lemma RemapNode_walk_total rank fuel (R : gmap SDOperand SDOperand) N :
  ranked rank R -> size R < fuel -> is_Some (RemapNode_walk fuel R N).
Proof.
  revert R N. induction fuel as [|fuel IH]; intros R N HR Hsz; [lia |].
  simpl. destruct (R !! N) as [To|] eqn:E; [| by eexists].
  rewrite <- (RemapNode_walk_delete rank fuel R N To HR (HR _ _ E)).
  apply IH; [by apply ranked_delete |].
  rewrite map_size_delete, E. 
  assert (size R <> 0).
  { intros Hz. apply map_size_empty_inv in Hz. subst R.
    by rewrite lookup_empty in E. }
  lia.
Qed.

Lemma RemapNode_total (L : DAGTypeLegalizer) (N : SDOperand) :
  acyclic L -> exists N', RemapNode L N = Some N'.
Proof.
  intros [rank HR]. unfold RemapNode.
  destruct (RemapNode_walk_total rank (S (size (ReplacedNodes L)))
              (ReplacedNodes L) N HR) as [N' HN']; [lia | eauto].
Qed.

Lemma RemapNode_canonical (L : DAGTypeLegalizer) (N N' : SDOperand) :
  RemapNode L N = Some N' -> canonical L N'.
Proof. apply RemapNode_walk_canonical. Qed.

Lemma RemapNode_fixed (L : DAGTypeLegalizer) (N : SDOperand) :
  canonical L N -> RemapNode L N = Some N.
Proof. apply RemapNode_walk_fixed. Qed.

(** C6: remap resolution is idempotent.  A reference with no outstanding
    entry in the replacement table comes back unchanged; a reference that
    came out of [RemapNode] comes back unchanged from a second call; and on
    a table without circular chains the first call does return. *)
Theorem RemapNode_idempotent (L : DAGTypeLegalizer) (N : SDOperand) :
  (canonical L N -> RemapNode L N = Some N) /\
  (forall N', RemapNode L N = Some N' -> RemapNode L N' = Some N') /\
  (acyclic L ->
   exists N', RemapNode L N = Some N' /\ RemapNode L N' = Some N').
Proof.
  split; [apply RemapNode_fixed |]. split.
  - intros N' H. by apply RemapNode_fixed, (RemapNode_canonical L N).
  - intros Hac. destruct (RemapNode_total L N Hac) as [N' H].
    exists N'. split; [exact H |].
    by apply RemapNode_fixed, (RemapNode_canonical L N).
Qed.

Lemma RemapNode_idempotent_witness :
  RemapNode Sample.replaced_legalizer Sample.new = Some Sample.new /\
  RemapNode Sample.replaced_legalizer Sample.old = Some Sample.new /\
  acyclic Sample.replaced_legalizer /\
  (exists N', RemapNode Sample.replaced_legalizer Sample.old = Some N' /\
              RemapNode Sample.replaced_legalizer N' = Some N').
Proof.
  assert (acyclic Sample.replaced_legalizer) as Hac.
  { exists (fun N => 10 - N.to_nat (Val N)). intros K V H. simpl in H.
    apply lookup_insert_Some in H as [[<- <-] | [_ H]];
      [vm_compute; lia |].
    apply lookup_singleton_Some in H as [<- <-]. vm_compute; lia. }
  split; [| split; [| split]].
  - apply (RemapNode_idempotent Sample.replaced_legalizer Sample.new).
    vm_compute. reflexivity.
  - vm_compute. reflexivity.
  - exact Hac.
  - apply (RemapNode_idempotent Sample.replaced_legalizer Sample.old).
    exact Hac.
Defined.

(** ** The accessors of the conversion tables *)

Ltac remap_same_table :=
  repeat match goal with
  | |- context [RemapNode ?L1 ?x] =>
      lazymatch L1 with
      | set_PromotedIntegers _ ?L => change (RemapNode L1 x) with (RemapNode L x)
      | set_PromotedFloats _ ?L => change (RemapNode L1 x) with (RemapNode L x)
      | set_ScalarizedVectors _ ?L => change (RemapNode L1 x) with (RemapNode L x)
      | set_ExpandedIntegers _ ?L => change (RemapNode L1 x) with (RemapNode L x)
      | set_ExpandedFloats _ ?L => change (RemapNode L1 x) with (RemapNode L x)
      | set_SplitVectors _ ?L => change (RemapNode L1 x) with (RemapNode L x)
      end
  end.

Ltac single_accessor table get :=
  intros L Op Hnull; unfold get, DenseMap_index;
  destruct (table L !! Op) as [v|] eqn:E; remap_same_table;
  [ destruct (RemapNode L v) as [R0|] eqn:ER;
    [ destruct (Val R0 =? 0)%N eqn:EV;
      [ apply N.eqb_eq in EV | apply N.eqb_neq in EV ] | ];
    (split; [| split; [| discriminate]]);
    [ discriminate
    | intros v' R [= <-] HR HV; congruence
    | intros R L' [= <- <-]; exists v; repeat split; try done;
      apply (RemapNode_canonical L v R0 ER)
    | intros v' R [= <-] HR HV; rewrite ER in HR;
      injection HR as <-; eauto
    | discriminate
    | intros v' R [= <-] HR HV; congruence ]
  | rewrite (RemapNode_fixed L nullOperand Hnull); simpl;
    (split; [| split]);
    [ discriminate | discriminate | intros _; eauto ] ].

Lemma GetPromotedInteger_contract :
  single_accessor_contract PromotedIntegers GetPromotedInteger.
Proof. single_accessor PromotedIntegers GetPromotedInteger. Qed.

Lemma GetPromotedFloat_contract :
  single_accessor_contract PromotedFloats GetPromotedFloat.
Proof. single_accessor PromotedFloats GetPromotedFloat. Qed.

Lemma GetScalarizedVector_contract :
  single_accessor_contract ScalarizedVectors GetScalarizedVector.
Proof. single_accessor ScalarizedVectors GetScalarizedVector. Qed.

Ltac pair_accessor table get :=
  intros L Op Hnull; unfold get, DenseMap_index;
  destruct (table L !! Op) as [[lo hi]|] eqn:E; remap_same_table;
  simpl fst; simpl snd;
  [ destruct (RemapNode L lo) as [Lo0|] eqn:ELo;
    destruct (RemapNode L hi) as [Hi0|] eqn:EHi;
    try (destruct (Val Lo0 =? 0)%N eqn:EV;
         [ apply N.eqb_eq in EV | apply N.eqb_neq in EV ]);
    (split; [| split; [| discriminate]]);
    first
      [ discriminate
      | intros Lo Hi L' [= <- <- <-]; exists (lo, hi); repeat split; try done;
        eapply RemapNode_canonical; eassumption
      | intros v' Lo Hi ? HLo HHi HV; simplify_eq/=;
        first [ congruence | eauto ] ]
  | rewrite (RemapNode_fixed L nullOperand Hnull); simpl;
    (split; [| split]);
    [ discriminate | discriminate | intros _; eauto ] ].

Lemma GetExpandedInteger_contract :
  pair_accessor_contract ExpandedIntegers GetExpandedInteger.
Proof. pair_accessor ExpandedIntegers GetExpandedInteger. Qed.

Lemma GetExpandedFloat_contract :
  pair_accessor_contract ExpandedFloats GetExpandedFloat.
Proof. pair_accessor ExpandedFloats GetExpandedFloat. Qed.

Lemma GetSplitVector_contract :
  pair_accessor_contract SplitVectors GetSplitVector.
Proof. pair_accessor SplitVectors GetSplitVector. Qed.

(** C3: every [Get*] accessor, of the single-valued tables and of the
    (low, high) tables alike, hands out the stored reference as resolved by
    [RemapNode], which has no outstanding replacement left, and fails
    instead of returning when the slot has no entry. *)
Theorem accessors_resolve_through_RemapNode :
  single_accessor_contract PromotedIntegers GetPromotedInteger /\
  single_accessor_contract PromotedFloats GetPromotedFloat /\
  single_accessor_contract ScalarizedVectors GetScalarizedVector /\
  pair_accessor_contract ExpandedIntegers GetExpandedInteger /\
  pair_accessor_contract ExpandedFloats GetExpandedFloat /\
  pair_accessor_contract SplitVectors GetSplitVector.
Proof.
  split; [apply GetPromotedInteger_contract |].
  split; [apply GetPromotedFloat_contract |].
  split; [apply GetScalarizedVector_contract |].
  split; [apply GetExpandedInteger_contract |].
  split; [apply GetExpandedFloat_contract | apply GetSplitVector_contract].
Qed.

Lemma accessors_resolve_through_RemapNode_witness :
  (exists L', GetPromotedInteger Sample.byte Sample.replaced_legalizer
              = Return Sample.new L') /\
  (exists msg L', GetPromotedInteger Sample.word Sample.replaced_legalizer
                  = Abort msg L') /\
  (exists L', GetExpandedInteger Sample.quad Sample.replaced_legalizer
              = Return (Sample.new, Sample.new) L').
Proof.
  assert (canonical Sample.replaced_legalizer nullOperand) as Hnull
    by (vm_compute; reflexivity).
  destruct accessors_resolve_through_RemapNode as (HPI & _ & _ & HEI & _).
  split; [| split].
  - destruct (HPI Sample.replaced_legalizer Sample.byte Hnull) as (_ & H & _).
    apply (H Sample.old Sample.new);
      [vm_compute; reflexivity | vm_compute; reflexivity | discriminate].
  - destruct (HPI Sample.replaced_legalizer Sample.word Hnull) as (_ & _ & H).
    apply H. vm_compute; reflexivity.
  - destruct (HEI Sample.replaced_legalizer Sample.quad Hnull) as (_ & H & _).
    apply (H (Sample.old, Sample.mid) Sample.new Sample.new);
      [vm_compute; reflexivity | vm_compute; reflexivity
      | vm_compute; reflexivity | discriminate].
Defined.

Ltac failed_lookup table get :=
  intros L Op Hnull E; unfold get, DenseMap_index; rewrite E;
  remap_same_table; rewrite (RemapNode_fixed L nullOperand Hnull); simpl;
  rewrite alter_insert_eq;
  eexists; split; [reflexivity |]; simpl;
  split; [apply lookup_insert_eq |];
  split; [intros K HK; by rewrite lookup_insert_ne | reflexivity].

Lemma GetPromotedInteger_failed_lookup L Op :
  canonical L nullOperand -> PromotedIntegers L !! Op = None ->
  exists L', GetPromotedInteger Op L = Abort "Operand wasn't promoted?" L' /\
             PromotedIntegers L' !! Op = Some nullOperand /\
             (forall K, Op <> K ->
                        PromotedIntegers L' !! K = PromotedIntegers L !! K) /\
             PromotedIntegers L' = <[ Op := nullOperand ]> (PromotedIntegers L).
Proof. revert L Op. failed_lookup PromotedIntegers GetPromotedInteger. Qed.

Lemma GetPromotedFloat_failed_lookup L Op :
  canonical L nullOperand -> PromotedFloats L !! Op = None ->
  exists L', GetPromotedFloat Op L
               = Abort "Operand wasn't converted to integer?" L' /\
             PromotedFloats L' !! Op = Some nullOperand /\
             (forall K, Op <> K ->
                        PromotedFloats L' !! K = PromotedFloats L !! K) /\
             PromotedFloats L' = <[ Op := nullOperand ]> (PromotedFloats L).
Proof. revert L Op. failed_lookup PromotedFloats GetPromotedFloat. Qed.

Lemma GetScalarizedVector_failed_lookup L Op :
  canonical L nullOperand -> ScalarizedVectors L !! Op = None ->
  exists L', GetScalarizedVector Op L = Abort "Operand wasn't scalarized?" L' /\
             ScalarizedVectors L' !! Op = Some nullOperand /\
             (forall K, Op <> K ->
                        ScalarizedVectors L' !! K = ScalarizedVectors L !! K) /\
             ScalarizedVectors L' = <[ Op := nullOperand ]> (ScalarizedVectors L).
Proof. revert L Op. failed_lookup ScalarizedVectors GetScalarizedVector. Qed.

(** What [operator[]] does for a key the map does not have: it hands out
    the default value and leaves the key in the map with that value. *)
Lemma DenseMap_index_missing {V} (dflt : V) (M : gmap SDOperand V) K :
  M !! K = None -> DenseMap_index dflt M K = (dflt, <[ K := dflt ]> M).
Proof. intros E. unfold DenseMap_index. by rewrite E. Qed.

(** C10: the failing path of the single-valued accessors changes the table.
    Asked for a value that was never converted, each of them ends in its
    assertion, and the table of the state it stops in is the one
    [operator[]] left when it was asked for the missing key: the table as it
    was, with the key added and mapped to the null reference.  So the key,
    which had no entry, has a null one, and the table is not what it was. *)
Theorem failed_lookup_inserts_null_entry (L : DAGTypeLegalizer) (Op : SDOperand) :
  canonical L nullOperand ->
  (PromotedIntegers L !! Op = None ->
   exists L', GetPromotedInteger Op L = Abort "Operand wasn't promoted?" L' /\
              PromotedIntegers L'
                = snd (DenseMap_index nullOperand (PromotedIntegers L) Op) /\
              PromotedIntegers L' = <[ Op := nullOperand ]> (PromotedIntegers L) /\
              PromotedIntegers L' !! Op = Some nullOperand /\
              PromotedIntegers L' <> PromotedIntegers L) /\
  (PromotedFloats L !! Op = None ->
   exists L', GetPromotedFloat Op L
                = Abort "Operand wasn't converted to integer?" L' /\
              PromotedFloats L'
                = snd (DenseMap_index nullOperand (PromotedFloats L) Op) /\
              PromotedFloats L' = <[ Op := nullOperand ]> (PromotedFloats L) /\
              PromotedFloats L' !! Op = Some nullOperand /\
              PromotedFloats L' <> PromotedFloats L) /\
  (ScalarizedVectors L !! Op = None ->
   exists L', GetScalarizedVector Op L = Abort "Operand wasn't scalarized?" L' /\
              ScalarizedVectors L'
                = snd (DenseMap_index nullOperand (ScalarizedVectors L) Op) /\
              ScalarizedVectors L'
                = <[ Op := nullOperand ]> (ScalarizedVectors L) /\
              ScalarizedVectors L' !! Op = Some nullOperand /\
              ScalarizedVectors L' <> ScalarizedVectors L).
Proof.
  intros Hnull. split; [| split]; intros E.
  - destruct (GetPromotedInteger_failed_lookup L Op Hnull E)
      as (L' & H1 & H2 & _ & H3).
    exists L'. rewrite (DenseMap_index_missing _ _ _ E).
    repeat split; try done. intros Heq. rewrite Heq in H2. congruence.
  - destruct (GetPromotedFloat_failed_lookup L Op Hnull E)
      as (L' & H1 & H2 & _ & H3).
    exists L'. rewrite (DenseMap_index_missing _ _ _ E).
    repeat split; try done. intros Heq. rewrite Heq in H2. congruence.
  - destruct (GetScalarizedVector_failed_lookup L Op Hnull E)
      as (L' & H1 & H2 & _ & H3).
    exists L'. rewrite (DenseMap_index_missing _ _ _ E).
    repeat split; try done. intros Heq. rewrite Heq in H2. congruence.
Qed.

Lemma failed_lookup_inserts_null_entry_witness :
  exists L', GetPromotedInteger Sample.quad Sample.fresh_legalizer
               = Abort "Operand wasn't promoted?" L' /\
             PromotedIntegers L'
               = snd (DenseMap_index nullOperand
                        (PromotedIntegers Sample.fresh_legalizer) Sample.quad) /\
             PromotedIntegers L'
               = <[ Sample.quad := nullOperand ]>
                   (PromotedIntegers Sample.fresh_legalizer) /\
             PromotedIntegers L' !! Sample.quad = Some nullOperand /\
             PromotedIntegers L' <> PromotedIntegers Sample.fresh_legalizer.
Proof.
  apply (failed_lookup_inserts_null_entry Sample.fresh_legalizer Sample.quad);
    vm_compute; reflexivity.
Defined.

(** ** Replacement *)

Lemma inTable_false {V} (M : gmap SDOperand V) K :
  M !! K = None -> inTable M K = false.
Proof.
  intros E. unfold inTable. apply bool_decide_eq_false. rewrite E.
  by intros [? ?].
Qed.

Lemma inTable_true {V} (M : gmap SDOperand V) K :
  inTable M K = true <-> is_Some (M !! K).
Proof. unfold inTable. apply bool_decide_eq_true. Qed.

Lemma inTable_ext {V W} (M : gmap SDOperand V) (M' : gmap SDOperand W) K :
  (is_Some (M !! K) <-> is_Some (M' !! K)) -> inTable M K = inTable M' K.
Proof. intros H. unfold inTable. by apply bool_decide_ext. Qed.

Lemma inTable_delete_ne {V} (M : gmap SDOperand V) X K :
  X <> K -> inTable (delete X M) K = inTable M K.
Proof. intros H. apply inTable_ext. by rewrite lookup_delete_ne. Qed.

(** C9: [NoteReplacement] expunges both values, the replaced one and its
    replacement, and records the replacement afterwards: neither is left
    with an entry in any conversion table, the replacement's own stale
    replacement entry is gone, [From] is mapped to [To], and the entries of
    every other value are as they were. *)
Theorem NoteReplacement_expunges_both (From To : SDOperand)
    (L : DAGTypeLegalizer) :
  let L' := NoteReplacement From To L in
  L' = set_ReplacedNodes (<[ From := To ]> (ReplacedNodes (ExpungeNode To (ExpungeNode From L))))
         (ExpungeNode To (ExpungeNode From L)) /\
  tablesHolding L' From = [] /\
  tablesHolding L' To = [] /\
  ReplacedNodes L' !! From = Some To /\
  (From <> To -> ReplacedNodes L' !! To = None) /\
  (forall K, K <> From -> K <> To ->
     tablesHolding L' K = tablesHolding L K /\
     ReplacedNodes L' !! K = ReplacedNodes L !! K).
Proof.
  cbv zeta. split; [reflexivity |].
  unfold NoteReplacement, tablesHolding. simpl.
  split; [| split; [| split; [| split]]].
  - rewrite !inTable_false; [reflexivity | ..];
      destruct (decide (To = From)) as [->|];
      rewrite ?lookup_delete_eq, ?lookup_delete_ne, ?lookup_delete_eq by done;
      done.
  - rewrite !inTable_false; [reflexivity | ..]; by rewrite lookup_delete_eq.
  - apply lookup_insert_eq.
  - intros Hne. rewrite lookup_insert_ne by done. apply lookup_delete_eq.
  - intros K HF HT.
    rewrite lookup_insert_ne, !lookup_delete_ne by done.
    split; [| reflexivity].
    by rewrite !inTable_delete_ne.
Qed.

Lemma NoteReplacement_expunges_both_witness :
  tablesHolding
    (NoteReplacement Sample.byte Sample.old Sample.replaced_legalizer)
    Sample.byte = [] /\
  ReplacedNodes
    (NoteReplacement Sample.byte Sample.old Sample.replaced_legalizer)
    !! Sample.old = None.
Proof.
  destruct (NoteReplacement_expunges_both Sample.byte Sample.old
              Sample.replaced_legalizer) as (_ & H1 & _ & _ & H2 & _).
  split; [exact H1 | apply H2; discriminate].
Defined.

(** ** Zero extension of a promoted operand *)

Lemma freshNode_unused (G : SelectionDAG) : AllNodes G !! freshNode G = None.
Proof.
  apply not_elem_of_dom. intros Hin.
  apply (is_fresh ({[ 0%N ]} ∪ dom (AllNodes G))).
  apply elem_of_union_r. exact Hin.
Qed.

Lemma addNode_extends (G : SelectionDAG) (nd : SDNode) :
  AllNodes G ⊆ AllNodes (snd (addNode G nd)).
Proof. simpl. apply insert_subseteq, freshNode_unused. Qed.

Lemma addNode_lookup (G : SelectionDAG) (nd : SDNode) :
  AllNodes (snd (addNode G nd)) !! Val (fst (addNode G nd)) = Some nd /\
  ResNo (fst (addNode G nd)) = 0%N.
Proof. simpl. split; [apply lookup_insert_eq | reflexivity]. Qed.

Lemma getValueType_weaken (G G' : SelectionDAG) Op VT :
  AllNodes G ⊆ AllNodes G' ->
  getValueType G Op = Some VT -> getValueType G' Op = Some VT.
Proof.
  intros Hsub. unfold getValueType.
  destruct (AllNodes G !! Val Op) as [nd|] eqn:E; [| discriminate].
  by rewrite (lookup_weaken _ _ _ _ E Hsub).
Qed.

Lemma evalValue_weaken input fuel (G G' : SelectionDAG) V v :
  AllNodes G ⊆ AllNodes G' ->
  evalValue input fuel G V = Some v -> evalValue input fuel G' V = Some v.
Proof.
  intros Hsub. revert V v.
  induction fuel as [|fuel IH]; intros V v; simpl; [discriminate |].
  destruct (AllNodes G !! Val V) as [nd|] eqn:E; [| discriminate].
  rewrite (lookup_weaken _ _ _ _ E Hsub).
  destruct (ValueTypes nd !! N.to_nat (ResNo V)) as [VT|]; [| discriminate].
  destruct (Opcode nd); try done.
  destruct (Operands nd) as [|A [|B [|]]]; try done.
  destruct (evalValue input fuel G A) as [a|] eqn:EA; [| discriminate].
  destruct (evalValue input fuel G B) as [b|] eqn:EB; [| discriminate].
  by rewrite (IH _ _ EA), (IH _ _ EB).
Qed.

Lemma evalValue_S input fuel (G : SelectionDAG) V :
  evalValue input (S fuel) G V =
  match AllNodes G !! Val V with
  | None => None
  | Some nd =>
      match ValueTypes nd !! N.to_nat (ResNo V) with
      | None => None
      | Some VT =>
          match Opcode nd with
          | ISD.Constant => Some (truncTo VT (ConstVal nd))
          | ISD.AND =>
              match Operands nd with
              | [A; B] =>
                  match evalValue input fuel G A, evalValue input fuel G B with
                  | Some a, Some b => Some (truncTo VT (Z.land a b))
                  | _, _ => None
                  end
              | _ => None
              end
          | ISD.Other _ => Some (truncTo VT (input V))
          end
      end
  end.
Proof. reflexivity. Qed.

Lemma evalValue_more_fuel input fuel (G : SelectionDAG) V v :
  evalValue input fuel G V = Some v -> evalValue input (S fuel) G V = Some v.
Proof.
  revert V v. induction fuel as [|fuel IH]; intros V v; [discriminate |].
  intros H. rewrite evalValue_S in H. rewrite evalValue_S.
  destruct (AllNodes G !! Val V) as [nd|]; [| discriminate].
  destruct (ValueTypes nd !! N.to_nat (ResNo V)) as [VT|]; [| discriminate].
  destruct (Opcode nd); try done.
  destruct (Operands nd) as [|A [|B [|]]]; try done.
  destruct (evalValue input fuel G A) as [a|] eqn:EA; [| discriminate].
  destruct (evalValue input fuel G B) as [b|] eqn:EB; [| discriminate].
  by rewrite (IH _ _ EA), (IH _ _ EB).
Qed.

Lemma truncTo_land (VT : MVT) (z : Z) :
  truncTo VT z = Z.land z (Z.ones (Z.of_N (getSizeInBits VT))).
Proof. unfold truncTo. rewrite Z.land_ones by lia. reflexivity. Qed.

(** A value that evaluates has a type and fits in its width. *)
Lemma evalValue_typed input fuel (G : SelectionDAG) V v :
  evalValue input fuel G V = Some v ->
  exists VT, getValueType G V = Some VT /\ truncTo VT v = v.
Proof.
  destruct fuel as [|fuel]; [discriminate |]. simpl. unfold getValueType.
  destruct (AllNodes G !! Val V) as [nd|]; [| discriminate].
  destruct (ValueTypes nd !! N.to_nat (ResNo V)) as [VT|]; [| discriminate].
  intros H. exists VT. split; [reflexivity |].
  assert (forall z, truncTo VT (truncTo VT z) = truncTo VT z) as Hidem.
  { intros z. unfold truncTo. apply Z.mod_mod. lia. }
  destruct (Opcode nd).
  - injection H as <-. apply Hidem.
  - destruct (Operands nd) as [|A [|B [|]]]; try done.
    destruct (evalValue input fuel G A), (evalValue input fuel G B); try done.
    injection H as <-. apply Hidem.
  - injection H as <-. apply Hidem.
Qed.

Lemma testbit_truncTo (VT : MVT) (z i : Z) :
  (0 <= i)%Z ->
  Z.testbit (truncTo VT z) i =
  Z.testbit z i && (i <? Z.of_N (getSizeInBits VT))%Z.
Proof.
  intros Hi. rewrite truncTo_land, Z.land_spec, Z.testbit_ones by lia.
  f_equal. destruct (Z.leb_spec 0 i); [reflexivity | lia].
Qed.

Lemma mask_keeps_low_bits (OpVT VT : MVT) (v : Z) :
  truncTo OpVT v = v ->
  truncTo OpVT
    (Z.land v (truncTo OpVT
                 (getLowBitsSet (getSizeInBits OpVT) (getSizeInBits VT))))
  = truncTo VT v.
Proof.
  intros Hv. apply Z.bits_inj'. intros i Hi.
  rewrite !testbit_truncTo, Z.land_spec, testbit_truncTo by lia.
  unfold getLowBitsSet. rewrite Z.land_spec, !Z.testbit_ones by lia.
  rewrite <- Hv at 1 2. rewrite testbit_truncTo by lia.
  destruct (Z.testbit v i), (Z.leb_spec 0 i),
    (Z.ltb_spec i (Z.of_N (getSizeInBits OpVT))),
    (Z.ltb_spec i (Z.of_N (getSizeInBits VT))); simpl; try reflexivity; lia.
Qed.

(** The helper returns a value that computes the operand's pattern cut to
    the width of [VT], in a graph that still has all the old nodes. *)
Lemma getZeroExtendInReg_value input fuel (G : SelectionDAG) Op VT v :
  evalValue input fuel G Op = Some v ->
  exists R G',
    getZeroExtendInReg G Op VT = Some (R, G') /\
    AllNodes G ⊆ AllNodes G' /\
    evalValue input (S fuel) G' R = Some (truncTo VT v).
Proof.
  intros Hev.
  destruct (evalValue_typed _ _ _ _ _ Hev) as (OpVT & HVT & Hfit).
  unfold getZeroExtendInReg. rewrite HVT.
  destruct (decide (OpVT = VT)) as [->|Hne].
  - exists Op, G. split; [reflexivity |]. split; [reflexivity |].
    rewrite Hfit. by apply evalValue_more_fuel.
  - unfold getConstant, getNode.
    set (cst := mkSDNode ISD.Constant [OpVT] []
                  (getLowBitsSet (getSizeInBits OpVT) (getSizeInBits VT))).
    destruct (addNode G cst) as [C G1] eqn:EC.
    set (and := mkSDNode ISD.AND [OpVT] [Op; C] 0).
    destruct (addNode G1 and) as [R G2] eqn:ER.
    pose proof (addNode_extends G cst) as Hsub1.
    pose proof (addNode_lookup G cst) as [HC HC0].
    pose proof (addNode_extends G1 and) as Hsub2.
    pose proof (addNode_lookup G1 and) as [HR HR0].
    rewrite EC in Hsub1, HC, HC0. rewrite ER in Hsub2, HR, HR0.
    simpl in Hsub1, HC, HC0, Hsub2, HR, HR0.
    exists R, G2. split; [reflexivity |].
    split; [by etrans |].
    rewrite evalValue_S, HR, HR0. simpl.
    rewrite (evalValue_weaken input fuel G G2 Op v); [| by etrans | done].
    destruct fuel as [|fuel]; [discriminate |].
    rewrite evalValue_S, (lookup_weaken _ _ _ _ HC Hsub2), HC0. simpl.
    by rewrite mask_keeps_low_bits.
Qed.

(** C8: for an operand [Op] of integer type [T] whose promoted value is on
    record, [ZExtPromotedInteger] returns a value whose bit pattern is that
    of the recorded promoted value (as [RemapNode] resolves it) with every
    bit from the width of [T] upwards cleared and the bits below it kept. *)
Theorem ZExtPromotedInteger_zero_extends (input : SDOperand -> Z)
    (fuel : nat) (L : DAGTypeLegalizer) (Op P P' : SDOperand) (T : MVT)
    (v : Z) :
  getValueType (DAG L) Op = Some T ->
  isVector T = false -> isInteger T = true ->
  PromotedIntegers L !! Op = Some P ->
  RemapNode L P = Some P' -> Val P' <> 0%N ->
  evalValue input fuel (DAG L) P' = Some v ->
  exists R L' v',
    ZExtPromotedInteger Op L = Return R L' /\
    evalValue input (S fuel) (DAG L') R = Some v' /\
    v' = truncTo T v /\
    (forall i, (Z.of_N (getSizeInBits T) <= i)%Z -> Z.testbit v' i = false) /\
    (forall i, (0 <= i < Z.of_N (getSizeInBits T))%Z ->
               Z.testbit v' i = Z.testbit v i).
Proof.
  intros HT _ _ HP HR HV Hev.
  unfold ZExtPromotedInteger, GetPromotedInteger, DenseMap_index.
  rewrite HT, HP. remap_same_table. rewrite HR.
  apply N.eqb_neq in HV. rewrite HV.
  destruct (getZeroExtendInReg_value input fuel (DAG L) P' T v Hev)
    as (R & G' & HZ & _ & Hev').
  simpl. rewrite HZ.
  eexists R, _, (truncTo T v). split; [reflexivity |].
  split; [exact Hev' |]. split; [reflexivity |]. split.
  - intros i Hi. rewrite testbit_truncTo by lia.
    destruct (Z.ltb_spec i (Z.of_N (getSizeInBits T))); [lia |].
    apply andb_false_r.
  - intros i Hi. rewrite testbit_truncTo by lia.
    destruct (Z.ltb_spec i (Z.of_N (getSizeInBits T))); [| lia].
    apply andb_true_r.
Qed.

Lemma ZExtPromotedInteger_zero_extends_witness :
  exists R L' v',
    ZExtPromotedInteger Sample.byte Sample.promoted_legalizer = Return R L' /\
    evalValue (fun _ => 511%Z) 2 (DAG L') R = Some v' /\
    v' = 255%Z /\
    (forall i, (8 <= i)%Z -> Z.testbit v' i = false) /\
    (forall i, (0 <= i < 8)%Z -> Z.testbit v' i = Z.testbit 511 i).
Proof.
  apply (ZExtPromotedInteger_zero_extends (fun _ => 511%Z) 1
           Sample.promoted_legalizer Sample.byte Sample.word Sample.word
           Sample.i8 511%Z);
    first [ vm_compute; reflexivity | discriminate ].
Defined.

(** ** The conversion tables during a run *)


Lemma actionOf_same (L L' : DAGTypeLegalizer) (Op : SDOperand) :
  DAG L' = DAG L -> TLI L' = TLI L ->
  ValueTypeActions L' = ValueTypeActions L ->
  actionOf L' Op = actionOf L Op.
Proof.
  intros H1 H2 H3. unfold actionOf, getTypeAction. by rewrite H1, H2, H3.
Qed.



























(** * Further properties of the header's members *)

(** ** The classifier and [isTypeLegal] *)

(** X1: [isTypeLegal] and the classifier agree: a type is legal exactly
    when [getTypeAction] answers [Legal]. *)
Theorem isTypeLegal_iff_classified_Legal (L : DAGTypeLegalizer) (VT : MVT) :
  isTypeLegal L VT = true <-> getTypeAction L VT = Ok Legal.
Proof.
  unfold isTypeLegal, getTypeAction.
  destruct (TargetLowering.getTypeAction (ValueTypeActions L) VT);
    try (split; [reflexivity || discriminate | reflexivity || discriminate]).
  destruct (negb (isVector VT)), (isInteger VT),
    (getSizeInBits VT =?
     getSizeInBits (TargetLowering.getTypeToTransformTo (TLI L) VT))%N,
    (getVectorNumElements VT =? 1)%N; split; discriminate.
Qed.

(** X2: the answer of the classifier pins down the coarse action and the
    shape of the type.  [Legal] and [PromoteInteger] are given for the coarse
    actions Legal and Promote whatever the type is; the other five only for
    Expand, [ExpandInteger] only for a scalar integer, the two float actions
    for every other scalar (split by whether the transform-to type has the
    same width), [Scalarize] only for a vector of one element and [Split]
    for every other vector. *)
Theorem getTypeAction_inversion (L : DAGTypeLegalizer) (VT : MVT) :
  let coarse := TargetLowering.getTypeAction (ValueTypeActions L) VT in
  let TT := TargetLowering.getTypeToTransformTo (TLI L) VT in
  (getTypeAction L VT = Ok Legal <-> coarse = TargetLowering.Legal) /\
  (getTypeAction L VT = Ok PromoteInteger <-> coarse = TargetLowering.Promote) /\
  (getTypeAction L VT = Ok ExpandInteger <->
     coarse = TargetLowering.Expand /\ isVector VT = false /\
     isInteger VT = true) /\
  (getTypeAction L VT = Ok PromoteFloat <->
     coarse = TargetLowering.Expand /\ isVector VT = false /\
     isInteger VT = false /\ getSizeInBits VT = getSizeInBits TT) /\
  (getTypeAction L VT = Ok ExpandFloat <->
     coarse = TargetLowering.Expand /\ isVector VT = false /\
     isInteger VT = false /\ getSizeInBits VT <> getSizeInBits TT) /\
  (getTypeAction L VT = Ok Scalarize <->
     coarse = TargetLowering.Expand /\ isVector VT = true /\
     getVectorNumElements VT = 1%N) /\
  (getTypeAction L VT = Ok Split <->
     coarse = TargetLowering.Expand /\ isVector VT = true /\
     getVectorNumElements VT <> 1%N).
Proof.
  cbv zeta. unfold getTypeAction.
  destruct (TargetLowering.getTypeAction (ValueTypeActions L) VT);
    destruct (isVector VT); simpl;
    destruct (isInteger VT);
    destruct (N.eqb_spec (getSizeInBits VT)
                (getSizeInBits (TargetLowering.getTypeToTransformTo (TLI L) VT)));
    destruct (N.eqb_spec (getVectorNumElements VT) 1);
    repeat split; intros; intuition (try discriminate; congruence).
Qed.

(** X3: the classifier trips its assertion exactly when the target's table
    holds none of Legal, Promote and Expand for the type; [isTypeLegal] has
    no such check and answers "not legal" there. *)
Theorem getTypeAction_fails_only_on_unknown_action (L : DAGTypeLegalizer)
    (VT : MVT) :
  (getTypeAction L VT = AssertFail "Unknown legalize action!" <->
   TargetLowering.getTypeAction (ValueTypeActions L) VT = TargetLowering.Custom) /\
  (forall msg, getTypeAction L VT = AssertFail msg ->
               isTypeLegal L VT = false) /\
  ((exists a, getTypeAction L VT = Ok a) \/
   getTypeAction L VT = AssertFail "Unknown legalize action!").
Proof.
  unfold getTypeAction, isTypeLegal.
  destruct (TargetLowering.getTypeAction (ValueTypeActions L) VT);
    destruct (negb (isVector VT)), (isInteger VT),
      (getSizeInBits VT =?
       getSizeInBits (TargetLowering.getTypeToTransformTo (TLI L) VT))%N,
      (getVectorNumElements VT =? 1)%N;
    (split; [split; (reflexivity || discriminate) |]);
    (split; [intros msg; (reflexivity || discriminate) |]);
    eauto.
Qed.

Lemma isTypeLegal_iff_classified_Legal_witness :
  getTypeAction Sample.fresh_legalizer Sample.i32 = Ok Legal /\
  isTypeLegal Sample.fresh_legalizer Sample.i32 = true.
Proof.
  split.
  - apply (isTypeLegal_iff_classified_Legal Sample.fresh_legalizer Sample.i32).
    reflexivity.
  - apply (isTypeLegal_iff_classified_Legal Sample.fresh_legalizer Sample.i32).
    reflexivity.
Defined.

Lemma getTypeAction_inversion_witness :
  TargetLowering.getTypeAction (ValueTypeActions Sample.fresh_legalizer)
    Sample.v1i32 = TargetLowering.Expand /\
  isVector Sample.v1i32 = true /\
  getVectorNumElements Sample.v1i32 = 1%N.
Proof.
  apply (getTypeAction_inversion Sample.fresh_legalizer Sample.v1i32).
  reflexivity.
Defined.

Lemma getTypeAction_fails_only_on_unknown_action_witness :
  getTypeAction Sample.custom_legalizer Sample.i32
    = AssertFail "Unknown legalize action!" /\
  isTypeLegal Sample.custom_legalizer Sample.i32 = false.
Proof.
  split.
  - apply (getTypeAction_fails_only_on_unknown_action
             Sample.custom_legalizer Sample.i32).
    reflexivity.
  - destruct (getTypeAction_fails_only_on_unknown_action
                Sample.custom_legalizer Sample.i32) as (_ & H & _).
    apply (H "Unknown legalize action!"). reflexivity.
Defined.

(** ** What an accessor call leaves behind *)

Ltac accessor_cases get H :=
  unfold get, DenseMap_index in H; repeat case_match; simplify_eq/=.

Ltac accessor_frame get :=
  intros L Op L' H; (split; [| split; [| split; [| split]]]);
  [ accessor_cases get H; reflexivity
  | accessor_cases get H; unfold tables_kept; simpl; repeat split;
    intros; done
  | accessor_cases get H; intros K HK;
    by rewrite ?lookup_alter_ne, ?lookup_insert_ne by done
  | clear H; intros R H; accessor_cases get H; rewrite lookup_alter_eq;
    first [ rewrite lookup_insert_eq; reflexivity
          | match goal with
            | E : _ !! _ = Some _ |- _ => rewrite E; reflexivity
            end ]
  | accessor_cases get H; intros N; reflexivity ].

Lemma GetPromotedInteger_frame L Op L' :
  final_state (GetPromotedInteger Op L) = Some L' ->
  DAG L' = DAG L /\ tables_kept PromoteInteger L L' /\
  (forall K, K <> Op -> PromotedIntegers L' !! K = PromotedIntegers L !! K) /\
  (forall R, GetPromotedInteger Op L = Return R L' ->
             PromotedIntegers L' !! Op = Some R) /\
  (forall N, RemapNode L' N = RemapNode L N).
Proof. revert L Op L'. accessor_frame GetPromotedInteger. Qed.

Lemma GetPromotedFloat_frame L Op L' :
  final_state (GetPromotedFloat Op L) = Some L' ->
  DAG L' = DAG L /\ tables_kept PromoteFloat L L' /\
  (forall K, K <> Op -> PromotedFloats L' !! K = PromotedFloats L !! K) /\
  (forall R, GetPromotedFloat Op L = Return R L' ->
             PromotedFloats L' !! Op = Some R) /\
  (forall N, RemapNode L' N = RemapNode L N).
Proof. revert L Op L'. accessor_frame GetPromotedFloat. Qed.

Lemma GetScalarizedVector_frame L Op L' :
  final_state (GetScalarizedVector Op L) = Some L' ->
  DAG L' = DAG L /\ tables_kept Scalarize L L' /\
  (forall K, K <> Op -> ScalarizedVectors L' !! K = ScalarizedVectors L !! K) /\
  (forall R, GetScalarizedVector Op L = Return R L' ->
             ScalarizedVectors L' !! Op = Some R) /\
  (forall N, RemapNode L' N = RemapNode L N).
Proof. revert L Op L'. accessor_frame GetScalarizedVector. Qed.

(** X4: an accessor call, whether it returns or stops in its assertion,
    changes one entry of one conversion table and nothing else that can be
    observed: the graph, the target data, the worklist, the other
    conversion tables and the other keys of its own table are as before,
    and every reference resolves as before ([RemapNode] gives the same
    answer in the new state as in the old one); when the call returns, the
    reference it returns is the one now stored under the key, so the
    resolved form replaces the stored one. *)
Theorem accessors_write_back_one_entry :
  (forall L Op L',
     final_state (GetPromotedInteger Op L) = Some L' ->
     DAG L' = DAG L /\ tables_kept PromoteInteger L L' /\
     (forall K, K <> Op -> PromotedIntegers L' !! K = PromotedIntegers L !! K) /\
     (forall R, GetPromotedInteger Op L = Return R L' ->
                PromotedIntegers L' !! Op = Some R) /\
     (forall N, RemapNode L' N = RemapNode L N)) /\
  (forall L Op L',
     final_state (GetPromotedFloat Op L) = Some L' ->
     DAG L' = DAG L /\ tables_kept PromoteFloat L L' /\
     (forall K, K <> Op -> PromotedFloats L' !! K = PromotedFloats L !! K) /\
     (forall R, GetPromotedFloat Op L = Return R L' ->
                PromotedFloats L' !! Op = Some R) /\
     (forall N, RemapNode L' N = RemapNode L N)) /\
  (forall L Op L',
     final_state (GetScalarizedVector Op L) = Some L' ->
     DAG L' = DAG L /\ tables_kept Scalarize L L' /\
     (forall K, K <> Op ->
                ScalarizedVectors L' !! K = ScalarizedVectors L !! K) /\
     (forall R, GetScalarizedVector Op L = Return R L' ->
                ScalarizedVectors L' !! Op = Some R) /\
     (forall N, RemapNode L' N = RemapNode L N)).
Proof.
  split; [exact GetPromotedInteger_frame |].
  split; [exact GetPromotedFloat_frame | exact GetScalarizedVector_frame].
Qed.

Lemma accessors_write_back_one_entry_witness :
  exists L',
    GetPromotedInteger Sample.byte Sample.replaced_legalizer
      = Return Sample.new L' /\
    PromotedIntegers L' !! Sample.byte = Some Sample.new /\
    DAG L' = DAG Sample.replaced_legalizer /\
    tables_kept PromoteInteger Sample.replaced_legalizer L' /\
    RemapNode L' Sample.old = RemapNode Sample.replaced_legalizer Sample.old.
Proof.
  eexists. split; [vm_compute; reflexivity |].
  destruct accessors_write_back_one_entry as (H & _ & _).
  edestruct (H Sample.replaced_legalizer Sample.byte)
    as (HD & HT & _ & HR & HN); [vm_compute; reflexivity |].
  split; [apply HR; vm_compute; reflexivity |].
  split; [exact HD |]. split; [exact HT | apply HN].
Defined.

(** ** Calling an accessor again *)

Ltac accessor_twice get :=
  intros L Op R L' H; accessor_cases get H;
  unfold get, DenseMap_index; simpl; rewrite lookup_alter_eq;
  first [ rewrite lookup_insert_eq
        | match goal with E : _ !! _ = Some _ |- _ => rewrite E end ];
  simpl; remap_same_table;
  match goal with
  | H1 : RemapNode _ ?v = Some ?R0 |- _ =>
      rewrite (RemapNode_fixed L R0 (RemapNode_canonical _ v R0 H1))
  end;
  match goal with
  | H2 : (Val _ =? 0)%N = false |- _ => rewrite H2
  end;
  f_equal;
  unfold set_PromotedIntegers, set_PromotedFloats, set_ScalarizedVectors;
  simpl; f_equal; apply alter_id;
  intros x Hx; rewrite lookup_alter_eq in Hx;
  match type of Hx with
  | _ <$> ?o = _ => destruct o; by simplify_eq/=
  end.

Lemma GetPromotedInteger_twice L Op R L' :
  GetPromotedInteger Op L = Return R L' ->
  GetPromotedInteger Op L' = Return R L'.
Proof. revert L Op R L'. accessor_twice GetPromotedInteger. Qed.

Lemma GetPromotedFloat_twice L Op R L' :
  GetPromotedFloat Op L = Return R L' ->
  GetPromotedFloat Op L' = Return R L'.
Proof. revert L Op R L'. accessor_twice GetPromotedFloat. Qed.

Lemma GetScalarizedVector_twice L Op R L' :
  GetScalarizedVector Op L = Return R L' ->
  GetScalarizedVector Op L' = Return R L'.
Proof. revert L Op R L'. accessor_twice GetScalarizedVector. Qed.

(** X5: asking an accessor again gives the same answer and changes nothing
    more: after a call that returned [R] in state [L'], the same call in
    [L'] returns [R] and stays in [L']. *)
Theorem accessors_settle_after_one_call :
  (forall L Op R L', GetPromotedInteger Op L = Return R L' ->
                     GetPromotedInteger Op L' = Return R L') /\
  (forall L Op R L', GetPromotedFloat Op L = Return R L' ->
                     GetPromotedFloat Op L' = Return R L') /\
  (forall L Op R L', GetScalarizedVector Op L = Return R L' ->
                     GetScalarizedVector Op L' = Return R L').
Proof.
  split; [exact GetPromotedInteger_twice |].
  split; [exact GetPromotedFloat_twice | exact GetScalarizedVector_twice].
Qed.

Lemma accessors_settle_after_one_call_witness :
  exists L',
    GetPromotedInteger Sample.byte Sample.replaced_legalizer
      = Return Sample.new L' /\
    GetPromotedInteger Sample.byte L' = Return Sample.new L'.
Proof.
  eexists. split; [vm_compute; reflexivity |].
  destruct accessors_settle_after_one_call as (H & _ & _).
  apply (H Sample.replaced_legalizer Sample.byte). vm_compute; reflexivity.
Defined.

(** ** Replacement seen through the accessors *)

Lemma NoteReplacement_ReplacedNodes From To L :
  ReplacedNodes (NoteReplacement From To L)
  = <[ From := To ]> (delete To (delete From (ReplacedNodes L))).
Proof. reflexivity. Qed.

Lemma RemapNode_walk_self_loop fuel (R : gmap SDOperand SDOperand) X :
  R !! X = Some X -> RemapNode_walk fuel R X = None.
Proof.
  intros HX. induction fuel as [|fuel IH]; [reflexivity |].
  simpl. by rewrite HX.
Qed.

Lemma RemapNode_after_self_replacement L X :
  RemapNode (NoteReplacement X X L) X = None.
Proof.
  unfold RemapNode. apply RemapNode_walk_self_loop.
  rewrite NoteReplacement_ReplacedNodes. apply lookup_insert_eq.
Qed.

Lemma RemapNode_after_NoteReplacement L From To :
  From <> To -> RemapNode (NoteReplacement From To L) From = Some To.
Proof.
  intros Hne. unfold RemapNode. rewrite NoteReplacement_ReplacedNodes.
  rewrite map_size_insert_None by (rewrite lookup_delete_ne by done;
                                   apply lookup_delete_eq).
  cbn [RemapNode_walk]. rewrite lookup_insert_eq.
  rewrite lookup_insert_ne by done. by rewrite lookup_delete_eq.
Qed.

(** X6: [NoteReplacement] has no guard against replacing a value by itself.
    After [NoteReplacement X X] the replacement table sends [X] to [X], so
    resolving [X] never ends, and neither does an accessor call for a slot
    whose stored substitute is [X]. *)
Theorem self_replacement_never_resolves (L : DAGTypeLegalizer)
    (X Op : SDOperand) :
  ReplacedNodes (NoteReplacement X X L) !! X = Some X /\
  RemapNode (NoteReplacement X X L) X = None /\
  (Op <> X -> PromotedIntegers L !! Op = Some X ->
   GetPromotedInteger Op (NoteReplacement X X L) = Stuck) /\
  (Op <> X -> PromotedFloats L !! Op = Some X ->
   GetPromotedFloat Op (NoteReplacement X X L) = Stuck) /\
  (Op <> X -> ScalarizedVectors L !! Op = Some X ->
   GetScalarizedVector Op (NoteReplacement X X L) = Stuck).
Proof.
  split; [rewrite NoteReplacement_ReplacedNodes; apply lookup_insert_eq |].
  split; [apply RemapNode_after_self_replacement |].
  split; [| split]; intros Hne HOp.
  - unfold GetPromotedInteger, DenseMap_index.
    change (PromotedIntegers (NoteReplacement X X L))
      with (delete X (delete X (PromotedIntegers L))).
    rewrite !lookup_delete_ne, HOp by done. remap_same_table.
    by rewrite RemapNode_after_self_replacement.
  - unfold GetPromotedFloat, DenseMap_index.
    change (PromotedFloats (NoteReplacement X X L))
      with (delete X (delete X (PromotedFloats L))).
    rewrite !lookup_delete_ne, HOp by done. remap_same_table.
    by rewrite RemapNode_after_self_replacement.
  - unfold GetScalarizedVector, DenseMap_index.
    change (ScalarizedVectors (NoteReplacement X X L))
      with (delete X (delete X (ScalarizedVectors L))).
    rewrite !lookup_delete_ne, HOp by done. remap_same_table.
    by rewrite RemapNode_after_self_replacement.
Qed.

Lemma self_replacement_never_resolves_witness :
  GetPromotedInteger Sample.byte
    (NoteReplacement Sample.old Sample.old Sample.stale_legalizer) = Stuck.
Proof.
  apply (self_replacement_never_resolves Sample.stale_legalizer
           Sample.old Sample.byte);
    [discriminate | vm_compute; reflexivity].
Defined.

(** X7: a replacement reaches the values stored in the tables.  Once
    [NoteReplacement From To] has been called for two different values, an
    accessor call for another slot whose stored substitute is [From] returns
    [To] (when [To] is not null) and stores [To] under that slot. *)
Theorem replacement_redirects_accessors (L : DAGTypeLegalizer)
    (From To Op : SDOperand) :
  From <> To -> Op <> From -> Op <> To -> Val To <> 0%N ->
  (PromotedIntegers L !! Op = Some From ->
   exists L', GetPromotedInteger Op (NoteReplacement From To L) = Return To L' /\
              PromotedIntegers L' !! Op = Some To) /\
  (PromotedFloats L !! Op = Some From ->
   exists L', GetPromotedFloat Op (NoteReplacement From To L) = Return To L' /\
              PromotedFloats L' !! Op = Some To) /\
  (ScalarizedVectors L !! Op = Some From ->
   exists L', GetScalarizedVector Op (NoteReplacement From To L) = Return To L' /\
              ScalarizedVectors L' !! Op = Some To).
Proof.
  intros Hne HF HT HV. apply N.eqb_neq in HV.
  split; [| split]; intros HOp.
  - unfold GetPromotedInteger, DenseMap_index.
    change (PromotedIntegers (NoteReplacement From To L))
      with (delete To (delete From (PromotedIntegers L))).
    rewrite !lookup_delete_ne, HOp by done. remap_same_table.
    rewrite RemapNode_after_NoteReplacement, HV by done.
    eexists. split; [reflexivity |]. simpl.
    rewrite lookup_alter_eq, !lookup_delete_ne, HOp by done. reflexivity.
  - unfold GetPromotedFloat, DenseMap_index.
    change (PromotedFloats (NoteReplacement From To L))
      with (delete To (delete From (PromotedFloats L))).
    rewrite !lookup_delete_ne, HOp by done. remap_same_table.
    rewrite RemapNode_after_NoteReplacement, HV by done.
    eexists. split; [reflexivity |]. simpl.
    rewrite lookup_alter_eq, !lookup_delete_ne, HOp by done. reflexivity.
  - unfold GetScalarizedVector, DenseMap_index.
    change (ScalarizedVectors (NoteReplacement From To L))
      with (delete To (delete From (ScalarizedVectors L))).
    rewrite !lookup_delete_ne, HOp by done. remap_same_table.
    rewrite RemapNode_after_NoteReplacement, HV by done.
    eexists. split; [reflexivity |]. simpl.
    rewrite lookup_alter_eq, !lookup_delete_ne, HOp by done. reflexivity.
Qed.

Lemma replacement_redirects_accessors_witness :
  exists L',
    GetPromotedInteger Sample.byte
      (NoteReplacement Sample.old Sample.new Sample.stale_legalizer)
      = Return Sample.new L' /\
    PromotedIntegers L' !! Sample.byte = Some Sample.new.
Proof.
  apply (replacement_redirects_accessors Sample.stale_legalizer
           Sample.old Sample.new Sample.byte);
    first [ discriminate | vm_compute; reflexivity ].
Defined.

(** ** [ZExtPromotedInteger] around the accessor *)

Lemma getZeroExtendInReg_shape (G G' : SelectionDAG) (Op R : SDOperand)
    (VT : MVT) :
  getZeroExtendInReg G Op VT = Some (R, G') ->
  AllNodes G ⊆ AllNodes G' /\
  getValueType G' R = getValueType G Op /\
  (getValueType G Op = Some VT -> R = Op /\ G' = G).
Proof.
  unfold getZeroExtendInReg.
  destruct (getValueType G Op) as [OpVT|] eqn:HVT; [| discriminate].
  destruct (decide (OpVT = VT)) as [->|Hne].
  - intros [= <- <-]. rewrite HVT. done.
  - unfold getConstant, getNode.
    set (cst := mkSDNode ISD.Constant [OpVT] []
                  (getLowBitsSet (getSizeInBits OpVT) (getSizeInBits VT))).
    destruct (addNode G cst) as [C G1] eqn:EC.
    set (and := mkSDNode ISD.AND [OpVT] [Op; C] 0).
    destruct (addNode G1 and) as [R0 G2] eqn:ER.
    pose proof (addNode_extends G cst) as Hsub1.
    pose proof (addNode_extends G1 and) as Hsub2.
    pose proof (addNode_lookup G1 and) as [HR HR0].
    rewrite EC in Hsub1. rewrite ER in Hsub2, HR, HR0.
    simpl in Hsub1, Hsub2, HR, HR0.
    intros [= <- <-]. split; [by etrans |]. split.
    + unfold getValueType at 1. rewrite HR, HR0. reflexivity.
    + intros [= ?]. done.
Qed.

Lemma addNode_size (G : SelectionDAG) (nd : SDNode) :
  size (AllNodes (snd (addNode G nd))) = S (size (AllNodes G)).
Proof. simpl. apply map_size_insert_None, freshNode_unused. Qed.

Lemma ZExtPromotedInteger_inv L Op R L' :
  ZExtPromotedInteger Op L = Return R L' ->
  exists OldVT P' L1 G',
    getValueType (DAG L) Op = Some OldVT /\
    GetPromotedInteger Op L = Return P' L1 /\
    getZeroExtendInReg (DAG L1) P' OldVT = Some (R, G') /\
    L' = set_DAG G' L1.
Proof.
  unfold ZExtPromotedInteger.
  destruct (getValueType (DAG L) Op) as [OldVT|]; [| discriminate].
  destruct (GetPromotedInteger Op L) as [P' L1| |]; try discriminate.
  destruct (getZeroExtendInReg (DAG L1) P' OldVT) as [[R0 G']|] eqn:HZ;
    [| discriminate].
  intros [= <- <-]. by exists OldVT, P', L1, G'.
Qed.

(** X8: [ZExtPromotedInteger] asks for the promoted value before it builds
    anything.  Whenever it stops in an assertion, that is the accessor's
    assertion and the graph is as it was; in particular for an operand that
    was never promoted it stops with "Operand wasn't promoted?", no node
    built, the operand's key left with a null entry. *)
Theorem ZExtPromotedInteger_fails_before_building (L : DAGTypeLegalizer)
    (Op : SDOperand) :
  (forall msg L', ZExtPromotedInteger Op L = Abort msg L' ->
     GetPromotedInteger Op L = Abort msg L' /\ DAG L' = DAG L) /\
  (forall T, canonical L nullOperand ->
     getValueType (DAG L) Op = Some T ->
     PromotedIntegers L !! Op = None ->
     exists L', ZExtPromotedInteger Op L = Abort "Operand wasn't promoted?" L' /\
                DAG L' = DAG L /\
                PromotedIntegers L' !! Op = Some nullOperand).
Proof.
  split.
  - intros msg L'. unfold ZExtPromotedInteger.
    destruct (getValueType (DAG L) Op) as [OldVT|]; [| discriminate].
    destruct (GetPromotedInteger Op L) as [P' L1|msg1 L1|] eqn:HG;
      try discriminate.
    + destruct (getZeroExtendInReg (DAG L1) P' OldVT) as [[R0 G']|];
        discriminate.
    + intros [= <- <-]. split; [reflexivity |].
      apply (GetPromotedInteger_frame L Op L1). by rewrite HG.
  - intros T Hnull HT HOp.
    destruct (GetPromotedInteger_failed_lookup L Op Hnull HOp)
      as (L' & HG & HE & _).
    exists L'. unfold ZExtPromotedInteger. rewrite HT, HG.
    split; [reflexivity |]. split; [| exact HE].
    apply (GetPromotedInteger_frame L Op L'). by rewrite HG.
Qed.

Lemma ZExtPromotedInteger_fails_before_building_witness :
  exists L',
    ZExtPromotedInteger Sample.quad Sample.fresh_legalizer
      = Abort "Operand wasn't promoted?" L' /\
    DAG L' = DAG Sample.fresh_legalizer /\
    PromotedIntegers L' !! Sample.quad = Some nullOperand.
Proof.
  destruct (ZExtPromotedInteger_fails_before_building
              Sample.fresh_legalizer Sample.quad) as [_ H].
  apply (H Sample.i64); vm_compute; reflexivity.
Defined.

(** X9: what a returning [ZExtPromotedInteger] leaves behind.  Every node of
    the graph is still there, at most two have been added, and the target
    data, the worklist and the conversion tables other than
    [PromotedIntegers] are untouched; the operand's key now holds the
    resolved, non-null promoted value; the result has the type of that
    promoted value, and is that very value, with no node built, when the
    promoted value already has the operand's type. *)
Theorem ZExtPromotedInteger_extends_graph (L L' : DAGTypeLegalizer)
    (Op R : SDOperand) :
  ZExtPromotedInteger Op L = Return R L' ->
  AllNodes (DAG L) ⊆ AllNodes (DAG L') /\
  size (AllNodes (DAG L')) <= size (AllNodes (DAG L)) + 2 /\
  tables_kept PromoteInteger L L' /\
  exists P',
    GetPromotedInteger Op L = Return P' (set_DAG (DAG L) L') /\
    PromotedIntegers L' !! Op = Some P' /\ Val P' <> 0%N /\
    getValueType (DAG L') R = getValueType (DAG L) P' /\
    (getValueType (DAG L) P' = getValueType (DAG L) Op ->
     R = P' /\ DAG L' = DAG L).
Proof.
  intros H.
  destruct (ZExtPromotedInteger_inv L Op R L' H)
    as (OldVT & P' & L1 & G' & HT & HG & HZ & ->).
  destruct (GetPromotedInteger_frame L Op L1) as (HD & HK & _ & HW & _);
    [by rewrite HG |].
  specialize (HW P' HG).
  destruct (getZeroExtendInReg_shape _ _ _ _ _ HZ) as (Hsub & HRT & Hsame).
  rewrite HD in Hsub, HRT, Hsame.
  assert (Val P' <> 0%N) as HV.
  { revert HG. unfold GetPromotedInteger, DenseMap_index.
    repeat case_match; intros; simplify_eq; by apply N.eqb_neq. }
  split; [exact Hsub |]. split.
  - revert HZ. unfold getZeroExtendInReg. rewrite HD.
    destruct (getValueType (DAG L) P') as [OpVT|]; [| discriminate].
    destruct (decide (OpVT = OldVT)).
    + intros [= <- <-]. simpl. lia.
    + unfold getConstant, getNode.
      destruct (addNode (DAG L) _) as [C G1] eqn:EC.
      intros [= <- <-]. unfold set_DAG. cbn [DAG AllNodes].
      rewrite map_size_insert_None by apply freshNode_unused.
      apply (f_equal snd) in EC. cbn [snd] in EC. subst G1.
      rewrite addNode_size. lia.
  - split; [exact HK |]. exists P'. simpl.
    split.
    { rewrite HG. f_equal. destruct L1. simpl in HD. by subst. }
    split; [exact HW |]. split; [exact HV |]. split; [exact HRT |].
    intros Heq. rewrite HT in Heq. exact (Hsame Heq).
Qed.

Lemma ZExtPromotedInteger_extends_graph_witness :
  exists R L',
    ZExtPromotedInteger Sample.byte Sample.promoted_legalizer = Return R L' /\
    AllNodes (DAG Sample.promoted_legalizer) ⊆ AllNodes (DAG L') /\
    size (AllNodes (DAG L')) <= size (AllNodes (DAG Sample.promoted_legalizer)) + 2 /\
    tables_kept PromoteInteger Sample.promoted_legalizer L'.
Proof.
  destruct (ZExtPromotedInteger Sample.byte Sample.promoted_legalizer)
    as [R L'| |] eqn:E;
    [| vm_compute in E; discriminate | vm_compute in E; discriminate].
  exists R, L'. split; [reflexivity |].
  destruct (ZExtPromotedInteger_extends_graph Sample.promoted_legalizer L'
              Sample.byte R E) as (H1 & H2 & H3 & _).
  split; [exact H1 |]. split; [exact H2 | exact H3].
Defined.

(** ** Classification across calls *)

Lemma actionOf_kept (L L' : DAGTypeLegalizer) (V : SDOperand) a :
  (forall VT, getTypeAction L' VT = getTypeAction L VT) ->
  AllNodes (DAG L) ⊆ AllNodes (DAG L') ->
  actionOf L V = Some a -> actionOf L' V = Some a.
Proof.
  intros Hcls Hsub. unfold actionOf.
  destruct (getValueType (DAG L) V) as [VT|] eqn:E; [| discriminate].
  by rewrite (getValueType_weaken _ _ _ _ Hsub E), Hcls.
Qed.

Lemma ZExtPromotedInteger_frame L Op L' :
  final_state (ZExtPromotedInteger Op L) = Some L' ->
  AllNodes (DAG L) ⊆ AllNodes (DAG L') /\ tables_kept PromoteInteger L L'.
Proof.
  unfold ZExtPromotedInteger.
  destruct (getValueType (DAG L) Op) as [OldVT|]; [| discriminate].
  destruct (GetPromotedInteger Op L) as [P' L1|msg1 L1|] eqn:HG;
    try discriminate.
  - destruct (GetPromotedInteger_frame L Op L1) as (HD & HK & _);
      [by rewrite HG |].
    destruct (getZeroExtendInReg (DAG L1) P' OldVT) as [[R0 G']|] eqn:HZ;
      [| discriminate].
    intros [= <-].
    destruct (getZeroExtendInReg_shape _ _ _ _ _ HZ) as (Hsub & _).
    rewrite HD in Hsub. split; [exact Hsub | exact HK].
  - intros [= <-].
    destruct (GetPromotedInteger_frame L Op L1) as (HD & HK & _);
      [by rewrite HG |].
    rewrite HD. done.
Qed.

(** X10: none of the header's members that change the legalizer changes how
    types are classified.  After an accessor call, a [ZExtPromotedInteger]
    call (returned or stopped in an assertion) or a [NoteReplacement],
    [getTypeAction] and [isTypeLegal] answer as before for every type, and
    every value of the graph keeps the action it had. *)
Theorem classification_survives_calls (L L' : DAGTypeLegalizer) :
  (exists Op,
     final_state (GetPromotedInteger Op L) = Some L' \/
     final_state (GetPromotedFloat Op L) = Some L' \/
     final_state (GetScalarizedVector Op L) = Some L' \/
     final_state (ZExtPromotedInteger Op L) = Some L') \/
  (exists From To, L' = NoteReplacement From To L) ->
  (forall VT, getTypeAction L' VT = getTypeAction L VT) /\
  (forall VT, isTypeLegal L' VT = isTypeLegal L VT) /\
  (forall V a, actionOf L V = Some a -> actionOf L' V = Some a).
Proof.
  intros H.
  assert (TLI L' = TLI L /\ ValueTypeActions L' = ValueTypeActions L /\
          AllNodes (DAG L) ⊆ AllNodes (DAG L')) as (HT & HA & Hsub).
  { destruct H as [(Op & [H | [H | [H | H]]]) | (From & To & ->)].
    - destruct (GetPromotedInteger_frame L Op L' H) as (HD & (? & ? & _) & _).
      by rewrite HD.
    - destruct (GetPromotedFloat_frame L Op L' H) as (HD & (? & ? & _) & _).
      by rewrite HD.
    - destruct (GetScalarizedVector_frame L Op L' H) as (HD & (? & ? & _) & _).
      by rewrite HD.
    - destruct (ZExtPromotedInteger_frame L Op L' H) as (Hsub & (? & ? & _)).
      done.
    - done. }
  assert (forall VT, getTypeAction L' VT = getTypeAction L VT) as Hcls
    by (intros VT; unfold getTypeAction; by rewrite HT, HA).
  split; [exact Hcls |]. split.
  - intros VT. unfold isTypeLegal. by rewrite HA.
  - intros V a. by apply actionOf_kept.
Qed.

Lemma classification_survives_calls_witness :
  getTypeAction
    (NoteReplacement Sample.old Sample.new Sample.stale_legalizer) Sample.i8
  = getTypeAction Sample.stale_legalizer Sample.i8 /\
  actionOf (NoteReplacement Sample.old Sample.new Sample.stale_legalizer)
    Sample.quad = Some ExpandInteger.
Proof.
  destruct (classification_survives_calls Sample.stale_legalizer
              (NoteReplacement Sample.old Sample.new Sample.stale_legalizer))
    as (H1 & _ & H2).
  { right. exists Sample.old, Sample.new. reflexivity. }
  split; [apply H1 | apply H2; vm_compute; reflexivity].
Defined.

(** ** The legalizer as constructed *)

(** X11: the constructor accepts exactly the counts up to 32, 32 included.
    The legalizer it returns works on the graph it was given, calls a type
    legal exactly when the table of that graph's target does, and has
    nothing recorded: no value is replaced, so every reference is its own
    canonical form, and each accessor stops in its assertion for every
    operand. *)
Theorem ctor_accepts_up_to_32 (LAST_VALUETYPE : N) (dag : SelectionDAG) :
  ((LAST_VALUETYPE <= 32)%N <->
   exists L, DAGTypeLegalizer_ctor LAST_VALUETYPE dag = Ok L) /\
  (forall L, DAGTypeLegalizer_ctor LAST_VALUETYPE dag = Ok L ->
     DAG L = dag /\
     (forall VT,
        isTypeLegal L VT = true <->
        TargetLowering.getTypeAction
          (TargetLowering.getValueTypeActions (getTargetLoweringInfo dag)) VT
        = TargetLowering.Legal) /\
     (forall Op,
        RemapNode L Op = Some Op /\
        (exists L', GetPromotedInteger Op L
                    = Abort "Operand wasn't promoted?" L') /\
        (exists L', GetPromotedFloat Op L
                    = Abort "Operand wasn't converted to integer?" L') /\
        (exists L', GetScalarizedVector Op L
                    = Abort "Operand wasn't scalarized?" L'))).
Proof.
  unfold DAGTypeLegalizer_ctor. split.
  - destruct (N.leb_spec LAST_VALUETYPE 32) as [Hle|Hgt].
    + split; [eauto | done].
    + split; [lia | intros [L HL]; discriminate].
  - intros L HL.
    destruct (LAST_VALUETYPE <=? 32)%N; [| discriminate].
    injection HL as <-. split; [reflexivity |]. split.
    + intros VT. unfold isTypeLegal. simpl.
      destruct (TargetLowering.getTypeAction _ VT);
        split; (reflexivity || discriminate).
    + intros Op.
      set (L := mkDAGTypeLegalizer _ _ _ _ _ _ _ _ _ _ _).
      assert (forall K, canonical L K) as Hcan by (intros K; apply lookup_empty).
      split; [apply RemapNode_fixed, Hcan |].
      split; [| split].
      * destruct (GetPromotedInteger_failed_lookup L Op (Hcan _))
          as (L' & H & _); [apply lookup_empty | eauto].
      * destruct (GetPromotedFloat_failed_lookup L Op (Hcan _))
          as (L' & H & _); [apply lookup_empty | eauto].
      * destruct (GetScalarizedVector_failed_lookup L Op (Hcan _))
          as (L' & H & _); [apply lookup_empty | eauto].
Qed.

Lemma ctor_accepts_up_to_32_witness :
  (exists L, DAGTypeLegalizer_ctor 32 Sample.dag = Ok L) /\
  DAG Sample.fresh_legalizer = Sample.dag /\
  (exists L', GetPromotedFloat Sample.quad Sample.fresh_legalizer
              = Abort "Operand wasn't converted to integer?" L').
Proof.
  destruct (ctor_accepts_up_to_32 32 Sample.dag) as [H1 H2].
  split; [apply H1; lia |].
  destruct (H2 Sample.fresh_legalizer eq_refl) as (HD & _ & HOp).
  split; [exact HD |].
  destruct (HOp Sample.quad) as (_ & _ & HF & _). exact HF.
Defined.

(** ** Chains of replacements *)

Lemma RemapNode_walk_two_links fuel (R : gmap SDOperand SDOperand) A B C :
  R !! A = Some B -> R !! B = Some C -> R !! C = None ->
  RemapNode_walk (S (S (S fuel))) R A = Some C.
Proof. intros HA HB HC. cbn [RemapNode_walk]. by rewrite HA, HB, HC. Qed.

Lemma RemapNode_through_chain L A B C :
  A <> B -> B <> C -> A <> C ->
  RemapNode (NoteReplacement B C (NoteReplacement A B L)) A = Some C.
Proof.
  intros HAB HBC HAC. unfold RemapNode.
  rewrite !NoteReplacement_ReplacedNodes.
  set (m := delete C (delete B (<[A:=B]> (delete B (delete A (ReplacedNodes L)))))).
  assert (m !! A = Some B) as HmA.
  { unfold m. rewrite !lookup_delete_ne by done. apply lookup_insert_eq. }
  assert (m !! B = None) as HmB.
  { unfold m. rewrite lookup_delete_ne by done. apply lookup_delete_eq. }
  assert (m !! C = None) as HmC by apply lookup_delete_eq.
  rewrite map_size_insert_None by exact HmB.
  destruct (size m) as [|k] eqn:Hsz.
  { apply map_size_empty_inv in Hsz. rewrite Hsz in HmA.
    by rewrite lookup_empty in HmA. }
  apply (RemapNode_walk_two_links k _ A B C).
  - by rewrite lookup_insert_ne.
  - apply lookup_insert_eq.
  - by rewrite lookup_insert_ne.
Qed.

(** X12: replacements chain.  When [A] has been replaced by [B] and then
    [B] by [C] (three different values), resolving [A] gives [C], and an
    accessor call for another slot whose stored substitute is [A] returns
    [C] (when [C] is not null) and stores it under that slot. *)
Theorem replacement_chain_resolves_to_last (L : DAGTypeLegalizer)
    (A B C Op : SDOperand) :
  A <> B -> B <> C -> A <> C ->
  let L2 := NoteReplacement B C (NoteReplacement A B L) in
  RemapNode L2 A = Some C /\
  RemapNode L2 B = Some C /\
  (Op <> A -> Op <> B -> Op <> C -> Val C <> 0%N ->
   PromotedIntegers L !! Op = Some A ->
   exists L', GetPromotedInteger Op L2 = Return C L' /\
              PromotedIntegers L' !! Op = Some C).
Proof.
  intros HAB HBC HAC. cbv zeta.
  split; [by apply RemapNode_through_chain |].
  split; [by apply RemapNode_after_NoteReplacement |].
  intros HA HB HC HV HOp. apply N.eqb_neq in HV.
  unfold GetPromotedInteger, DenseMap_index.
  change (PromotedIntegers (NoteReplacement B C (NoteReplacement A B L)))
    with (delete C (delete B (delete B (delete A (PromotedIntegers L))))).
  rewrite !lookup_delete_ne, HOp by done. remap_same_table.
  rewrite RemapNode_through_chain, HV by done.
  eexists. split; [reflexivity |]. simpl.
  rewrite lookup_alter_eq, !lookup_delete_ne, HOp by done. reflexivity.
Qed.

Lemma replacement_chain_resolves_to_last_witness :
  RemapNode
    (NoteReplacement Sample.mid Sample.new
       (NoteReplacement Sample.old Sample.mid Sample.stale_legalizer))
    Sample.old = Some Sample.new /\
  (exists L',
     GetPromotedInteger Sample.byte
       (NoteReplacement Sample.mid Sample.new
          (NoteReplacement Sample.old Sample.mid Sample.stale_legalizer))
       = Return Sample.new L' /\
     PromotedIntegers L' !! Sample.byte = Some Sample.new).
Proof.
  destruct (replacement_chain_resolves_to_last Sample.stale_legalizer
              Sample.old Sample.mid Sample.new Sample.byte)
    as (H1 & _ & H2); try discriminate.
  split; [exact H1 |].
  apply H2; first [ discriminate | vm_compute; reflexivity ].
Defined.

(** ** Asking the wrong table *)

(** X13: an accessor looks at its own table only.  Asked for a value that
    was converted by another strategy, here recorded in [PromotedFloats] or
    [ScalarizedVectors] but not in [PromotedIntegers], [GetPromotedInteger]
    stops in its assertion, and in the state it stops in the key sits in two
    tables: the one that had it, untouched, and [PromotedIntegers] with a
    null entry. *)
Theorem wrong_table_lookup_leaves_key_in_two_tables (L : DAGTypeLegalizer)
    (Op : SDOperand) :
  canonical L nullOperand ->
  PromotedIntegers L !! Op = None ->
  exists L',
    GetPromotedInteger Op L = Abort "Operand wasn't promoted?" L' /\
    PromotedIntegers L' !! Op = Some nullOperand /\
    PromotedFloats L' = PromotedFloats L /\
    ScalarizedVectors L' = ScalarizedVectors L /\
    (forall v, PromotedFloats L !! Op = Some v ->
       tablesHolding L Op = [PromoteFloat] ->
       tablesHolding L' Op = [PromoteInteger; PromoteFloat]).
Proof.
  intros Hnull HOp.
  destruct (GetPromotedInteger_failed_lookup L Op Hnull HOp)
    as (L' & HG & HE & _).
  exists L'. split; [exact HG |]. split; [exact HE |].
  destruct (GetPromotedInteger_frame L Op L') as (_ & HK & _);
    [by rewrite HG |].
  destruct HK as (_ & _ & _ & _ & HEI & HPF & HEF & HSV & HSp).
  split; [by apply HPF |]. split; [by apply HSV |].
  intros v Hv. unfold tablesHolding.
  rewrite (HEI ltac:(done)), (HPF ltac:(done)), (HEF ltac:(done)),
    (HSV ltac:(done)), (HSp ltac:(done)).
  rewrite (inTable_false (PromotedIntegers L) Op HOp).
  assert (inTable (PromotedIntegers L') Op = true) as ->
    by (apply inTable_true; rewrite HE; eauto).
  simpl. intros ->. reflexivity.
Qed.

Lemma wrong_table_lookup_leaves_key_in_two_tables_witness :
  exists L',
    GetPromotedInteger (mkSDOperand 4 0) Sample.float_legalizer
      = Abort "Operand wasn't promoted?" L' /\
    tablesHolding L' (mkSDOperand 4 0) = [PromoteInteger; PromoteFloat].
Proof.
  destruct (wrong_table_lookup_leaves_key_in_two_tables
              Sample.float_legalizer (mkSDOperand 4 0))
    as (L' & H1 & _ & _ & _ & H2);
    [vm_compute; reflexivity | vm_compute; reflexivity |].
  exists L'. split; [exact H1 |].
  apply (H2 Sample.old); vm_compute; reflexivity.
Defined.

(** ** The promoted value stays on record *)

Lemma GetPromotedInteger_set_DAG G L Op R L1 :
  GetPromotedInteger Op L = Return R L1 ->
  GetPromotedInteger Op (set_DAG G L) = Return R (set_DAG G L1).
Proof.
  unfold GetPromotedInteger, DenseMap_index.
  change (PromotedIntegers (set_DAG G L)) with (PromotedIntegers L).
  destruct (PromotedIntegers L !! Op) as [v|];
    (match goal with
     | |- context [RemapNode ?L1 ?x] =>
         change (RemapNode (set_PromotedIntegers ?M (set_DAG G L)) x)
           with (RemapNode L1 x)
     end);
    destruct (RemapNode _ _) as [P|]; try discriminate;
    destruct (Val P =? 0)%N; try discriminate;
    intros [= <- <-]; reflexivity.
Qed.

(** X14: [ZExtPromotedInteger] does not record what it returns.  After it
    has returned, the operand's key holds the promoted value the call got
    from the accessor, and asking the accessor again, in the state the call
    left, gives that same promoted value and leaves the state as it is. *)
Theorem ZExtPromotedInteger_keeps_promoted_value (L L' : DAGTypeLegalizer)
    (Op R : SDOperand) :
  ZExtPromotedInteger Op L = Return R L' ->
  exists P',
    GetPromotedInteger Op L = Return P' (set_DAG (DAG L) L') /\
    PromotedIntegers L' !! Op = Some P' /\
    GetPromotedInteger Op L' = Return P' L'.
Proof.
  intros H.
  destruct (ZExtPromotedInteger_inv L Op R L' H)
    as (OldVT & P' & L1 & G' & HT & HG & HZ & ->).
  destruct (GetPromotedInteger_frame L Op L1) as (HD & _ & _ & HW & _);
    [by rewrite HG |].
  exists P'. split; [| split].
  - rewrite HG. f_equal. destruct L1. simpl in HD. by subst.
  - exact (HW P' HG).
  - apply GetPromotedInteger_set_DAG. by apply (GetPromotedInteger_twice L).
Qed.

Lemma ZExtPromotedInteger_keeps_promoted_value_witness :
  exists R L',
    ZExtPromotedInteger Sample.byte Sample.promoted_legalizer = Return R L' /\
    exists P',
      GetPromotedInteger Sample.byte Sample.promoted_legalizer
        = Return P' (set_DAG (DAG Sample.promoted_legalizer) L') /\
      PromotedIntegers L' !! Sample.byte = Some P' /\
      GetPromotedInteger Sample.byte L' = Return P' L'.
Proof.
  destruct (ZExtPromotedInteger Sample.byte Sample.promoted_legalizer)
    as [R L'| |] eqn:E;
    [| vm_compute in E; discriminate | vm_compute in E; discriminate].
  exists R, L'. split; [reflexivity |].
  exact (ZExtPromotedInteger_keeps_promoted_value
           Sample.promoted_legalizer L' Sample.byte R E).
Defined.
